(** * Scratchpad: the kernels' scratch-memory interface (dali/kernels/context.h)

    A shallow embedding of [dali::kernels::Scratchpad] and of the
    contiguous-packing operations it forwards to, together with the
    properties stated about them.

    Conventions.
    - [size_t] is a 64-bit unsigned integer: a value of [Z] in
      [0, 2^64), every arithmetic result reduced by [to_size_t].
    - Addresses are mathematical integers; pointer arithmetic does not wrap.
    - Memory that the host can address is a finite map from addresses to
      bytes.
    - The calls a method makes to the primitives it is built on
      ([Scratchpad::Alloc], [std::copy], [cudaMemcpyAsync]) are recorded,
      in issue order, in a log. *)

From Stdlib Require Import ZArith List Lia.
From stdpp Require Import base numbers option list fin_maps gmap.

Local Open Scope Z_scope.

(** ** Machine integers *)

Definition SIZE_MAX : Z := 2 ^ 64 - 1.

(** Conversion to [size_t] (and the result of [size_t] arithmetic). *)
Definition to_size_t (z : Z) : Z := z mod 2 ^ 64.

(** ** Memory kinds (dali/kernels/alloc_type.h) *)

Inductive AllocType := Host | Pinned | GPU | Unified.

Inductive StorageBackend := StorageCPU | StorageGPU | StorageUnified.

(** Modelled from the spec: the header alloc_type.h is not part of the
    sources at hand; each memory kind is mapped to an access-capability tag,
    Host and Pinned being host-addressable, Device device-addressable and
    Unified both. *)
Definition AllocBackend (alloc_type : AllocType) : StorageBackend :=
  match alloc_type with
  | Host | Pinned => StorageCPU
  | GPU => StorageGPU
  | Unified => StorageUnified
  end.

(** ** Element types

    A template argument [T]: the values of the type, [sizeof(T)],
    [alignof(T)] and the object representation of a value. *)

Record ElemType := {
  carrier : Type;
  sizeof : Z;
  alignof : Z;
  repr : carrier → list Byte.byte
}.

(** What C++ guarantees of every object type. *)
Definition wf_elem (T : ElemType) : Prop :=
  0 < sizeof T ∧ 0 < alignof T ∧
  ∀ x : carrier T, Z.of_nat (length (repr T x)) = sizeof T.

(** ** Shapes and views (dali/core/tensor_shape.h, tensor_view.h) *)

(** Modelled from the spec: tensor_shape.h is not part of the sources at
    hand. A shape is an ordered list of (64-bit signed) extents. *)
Definition TensorShape := list Z.

(** Modelled from the spec: the "total element volume" query of a shape
    descriptor, the product of its extents. *)
Definition volume (shape : TensorShape) : Z := foldr Z.mul 1 shape.

(** Modelled from the spec: a multi-shape descriptor, iterated in order
    over its per-item shapes; its element count is the sum of the item
    volumes. *)
Record TensorListShape := { tl_shapes : list TensorShape }.

Definition TensorListShape_of_vector (shape : list TensorShape) : TensorListShape :=
  {| tl_shapes := shape |}.

Definition num_elements (shape : TensorListShape) : Z :=
  foldr (λ s acc, volume s + acc) 0 (tl_shapes shape).

(** Modelled from the spec: a tensor view is a pointer and shape pair,
    tagged with the access capability of the memory it was allocated in. *)
Record TensorView := {
  tv_backend : StorageBackend;
  tv_data : Z;
  tv_shape : TensorShape
}.

(** Modelled from the spec: a tensor-list view is one flat buffer and an
    ordered list of per-item shapes. *)
Record TensorListView := {
  tlv_backend : StorageBackend;
  tlv_data : Z;
  tlv_shape : TensorListShape
}.

(** ** Errors, events and the world *)

Inductive Error :=
| AllocationExhausted
| AlignmentUnsupported
| Overflow.

Inductive Result (A : Type) :=
| Ok (a : A)
| Err (e : Error).
Arguments Ok {A} a.
Arguments Err {A} e.

Definition cudaStream_t := Z.

Inductive cudaMemcpyKind := cudaMemcpyHostToDevice.

Inductive Event :=
| EvAlloc (alloc_type : AllocType) (bytes alignment : Z)
| EvCopy (dst bytes : Z)
| EvStaging (addr bytes : Z)
| EvMemcpyAsync (dst src bytes : Z) (kind : cudaMemcpyKind) (stream : cudaStream_t).

(** The one primitive of the interface,
    [virtual void *Alloc(AllocType alloc_type, size_t bytes, size_t alignment) = 0],
    over the state [S] of whichever allocator implements it. A request the
    allocator cannot serve leaves by an exception, here an [Err]. *)
Class Scratchpad (S : Type) :=
  Alloc : AllocType → Z → Z → S → Result Z * S.

Record World (S : Type) := mkWorld {
  pad : S;
  host : gmap Z Byte.byte;
  log : list Event
}.
Arguments mkWorld {S} pad host log.
Arguments pad {S} w.
Arguments host {S} w.
Arguments log {S} w.

(** Computations of the methods: the world is threaded through, an error
    ends the computation and keeps the world reached so far. *)
Definition M (S A : Type) : Type := World S → Result A * World S.

Definition ret {S A} (a : A) : M S A := λ w, (Ok a, w).

Definition bind {S A B} (m : M S A) (k : A → M S B) : M S B :=
  λ w, match m w with
       | (Ok a, w') => k a w'
       | (Err e, w') => (Err e, w')
       end.

Definition throw {S A} (e : Error) : M S A := λ w, (Err e, w).

Definition lift {S A} (r : Result A) : M S A := λ w, (r, w).

Definition emit {S} (ev : Event) : M S unit :=
  λ w, (Ok tt, mkWorld (pad w) (host w) (log w ++ [ev])).

Notation "'let*' x ':=' m 'in' k" := (bind m (λ x, k))
  (at level 10, x pattern, m at level 100, k at level 200).

(** ** Host memory *)

Fixpoint store_bytes (a : Z) (bs : list Byte.byte) (h : gmap Z Byte.byte)
  : gmap Z Byte.byte :=
  match bs with
  | [] => h
  | b :: bs' => store_bytes (a + 1) bs' (<[a := b]> h)
  end.

Fixpoint load_bytes (a : Z) (n : nat) (h : gmap Z Byte.byte)
  : option (list Byte.byte) :=
  match n with
  | O => Some []
  | S n' =>
      match h !! a, load_bytes (a + 1) n' h with
      | Some b, Some bs => Some (b :: bs)
      | _, _ => None
      end
  end.

(** The element loop of [std::copy(begin(c), end(c), ptr)]:
    [*ptr++ = *first++] until the source is exhausted. *)
Fixpoint copy_elems (T : ElemType) (c : list (carrier T)) (ptr : Z)
  (h : gmap Z Byte.byte) : gmap Z Byte.byte :=
  match c with
  | [] => h
  | x :: c' => copy_elems T c' (ptr + sizeof T) (store_bytes ptr (repr T x) h)
  end.

(** A contiguous, indexable source ([if_array_like]): its storage starts at
    [data] in host memory. An iterable source ([if_iterable]) is the list of
    its elements. *)
Record ArrayLike (T : ElemType) := {
  data : Z;
  items : list (carrier T)
}.
Arguments data {T} _.
Arguments items {T} _.

Section Scratchpad.

Context {S : Type} `{!Scratchpad S}.

(** A call of the virtual [Alloc]. *)
Definition call_Alloc (alloc_type : AllocType) (bytes alignment : Z) : M S Z :=
  λ w, let '(r, s') := Alloc alloc_type bytes alignment (pad w) in
       (r, mkWorld s' (host w) (log w ++ [EvAlloc alloc_type bytes alignment])).

(** [std::copy(begin(c), end(c), ptr)] into host-addressable memory. *)
Definition std_copy (T : ElemType) (c : list (carrier T)) (ptr : Z) : M S unit :=
  λ w, (Ok tt,
        mkWorld (pad w) (copy_elems T c ptr (host w))
                (log w ++ [EvCopy ptr (Z.of_nat (length c) * sizeof T)])).

(** [CUDA_CALL(cudaMemcpyAsync(dst, src, bytes, kind, stream))]: the copy is
    put on the stream's queue and the call returns. *)
Definition cudaMemcpyAsync (dst src bytes : Z) (kind : cudaMemcpyKind)
  (stream : cudaStream_t) : M S unit :=
  emit (EvMemcpyAsync dst src bytes kind stream).

(** [[
  template <typename T>
  T *Allocate(AllocType alloc_type, size_t count, size_t alignment = alignof(T)) {
    return reinterpret_cast<T*>(Alloc(alloc_type, count*sizeof(T), alignment));
  }
]] *)
Definition Allocate (T : ElemType) (alloc_type : AllocType) (count : Z)
  (alignment : option Z) : M S Z :=
  call_Alloc alloc_type (to_size_t (count * sizeof T))
             (default (alignof T) alignment).

(** [[
  TensorView<AllocBackend<alloc_type>, T, dim> AllocTensor(TensorShape<dim> shape) {
    return { Allocate<T>(alloc_type, volume(shape)), std::move(shape) };
  }
]] *)
Definition AllocTensor (alloc_type : AllocType) (T : ElemType)
  (shape : TensorShape) : M S TensorView :=
  let* data := Allocate T alloc_type (to_size_t (volume shape)) None in
  ret {| tv_backend := AllocBackend alloc_type; tv_data := data; tv_shape := shape |}.

(** [[
  AllocTensorList(TensorListShape<dim> shape) {
    T *data = Allocate<T>(alloc_type, shape.num_elements());
    TensorListView<AllocBackend<alloc_type>, T, dim> tlv(data, std::move(shape));
    return tlv;
  }
]] *)
Definition AllocTensorList (alloc_type : AllocType) (T : ElemType)
  (shape : TensorListShape) : M S TensorListView :=
  let* data := Allocate T alloc_type (to_size_t (num_elements shape)) None in
  ret {| tlv_backend := AllocBackend alloc_type; tlv_data := data; tlv_shape := shape |}.

(** [[
  AllocTensorList(const std::vector<TensorShape<dim>> &shape) {
    return AllocTensorList<alloc_type, T, dim>(TensorListShape<dim>(shape));
  }
]] *)
Definition AllocTensorList_vector (alloc_type : AllocType) (T : ElemType)
  (shape : list TensorShape) : M S TensorListView :=
  AllocTensorList alloc_type T (TensorListShape_of_vector shape).

(** [size(c)], a [size_t]. *)
Definition size {A} (c : list A) : Z := Z.of_nat (length c).

(** [&c[i]]: the address of slot [i] of the storage, computed without any
    check, whether or not the collection has an element [i]. *)
Definition addr_of_elem {T} (c : ArrayLike T) (i : Z) : Z :=
  data c + i * sizeof T.

(** [[
  ToGPU(cudaStream_t stream, const Collection &c) {
    T *ptr = Allocate<T>(AllocType::GPU, size(c));
    CUDA_CALL(cudaMemcpyAsync(ptr, &c[0], size(c) * sizeof(T), cudaMemcpyHostToDevice, stream));
    return ptr;
  }
]] *)
Definition ToGPU (T : ElemType) (stream : cudaStream_t) (c : ArrayLike T) : M S Z :=
  let* ptr := Allocate T GPU (size (items c)) None in
  let* _ := cudaMemcpyAsync ptr (addr_of_elem c 0) (to_size_t (size (items c) * sizeof T))
                            cudaMemcpyHostToDevice stream in
  ret ptr.

(** [[
  ToHost(const Collection &c) {
    T *ptr = Allocate<T>(AllocType::Host, size(c));
    std::copy(begin(c), end(c), ptr);
    return ptr;
  }
]] *)
Definition ToHost (T : ElemType) (c : list (carrier T)) : M S Z :=
  let* ptr := Allocate T Host (size c) None in
  let* _ := std_copy T c ptr in
  ret ptr.

Definition ToPinned (T : ElemType) (c : list (carrier T)) : M S Z :=
  let* ptr := Allocate T Pinned (size c) None in
  let* _ := std_copy T c ptr in
  ret ptr.

Definition ToUnified (T : ElemType) (c : list (carrier T)) : M S Z :=
  let* ptr := Allocate T Unified (size c) None in
  let* _ := std_copy T c ptr in
  ret ptr.

End Scratchpad.

(** ** Contiguous packing (dali/kernels/scratch_copy_impl.h)

    context.h declares [ToContiguousHostMem] and [ToContiguousGPUMem] and
    includes their definitions from scratch_copy_impl.h. *)

(** One of the [const Collections &... c]: an element type and the
    elements. *)
Record Collection := {
  c_type : ElemType;
  c_items : list (carrier c_type)
}.

(** [size_i = length_i × elementSize_i] and [align_i = elementAlignment_i]. *)
Definition byte_size (c : Collection) : Z := size (c_items c) * sizeof (c_type c).
Definition align_of (c : Collection) : Z := alignof (c_type c).

(** Modelled from the spec: rounding a cursor up to the next multiple of an
    alignment. *)
Definition round_up (cursor align : Z) : Z := (cursor + align - 1) / align * align.

(** Modelled from the spec: scratch_copy_impl.h is not part of the sources
    at hand. The walk over the collections in call order with a running
    cursor: round the cursor up to the next multiple of [align_i], record
    [offset_i], advance by [size_i]; a running total beyond the range of
    [size_t] is an [Overflow]. The result is the offsets and the total. *)
Fixpoint plan_from (cursor : Z) (cs : list Collection) : Result (list Z * Z) :=
  match cs with
  | [] => Ok ([], cursor)
  | c :: cs' =>
      let offset := round_up cursor (align_of c) in
      let cursor' := offset + byte_size c in
      if decide (cursor' ≤ SIZE_MAX) then
        match plan_from cursor' cs' with
        | Ok (offsets, total) => Ok (offset :: offsets, total)
        | Err e => Err e
        end
      else Err Overflow
  end.

(** Modelled from the spec: the largest [align_i] seen, or a minimum default
    (one byte) when there is no collection. *)
Definition max_align (cs : list Collection) : Z :=
  foldr (λ c m, Z.max (align_of c) m) 1 cs.

Section Packing.

Context {S : Type} `{!Scratchpad S}.

(** Modelled from the spec: the copy phase, collection [i] to
    [base + offset_i], one copy per collection. *)
Fixpoint copy_all (base : Z) (offsets : list Z) (cs : list Collection) : M S unit :=
  match offsets, cs with
  | o :: offsets', c :: cs' =>
      let* _ := std_copy (c_type c) (c_items c) (base + o) in
      copy_all base offsets' cs'
  | _, _ => ret tt
  end.

(** Modelled from the spec: packing into host memory (the definition of
    [ToContiguousHostMem] is in scratch_copy_impl.h): plan, one allocation
    of [total] bytes at the largest alignment, each collection copied to
    its sub-range, the pointers returned in input order. *)
Definition ToContiguousHostMem (cs : list Collection) : M S (list Z) :=
  let* (offsets, total) := lift (plan_from 0 cs) in
  let* base := call_Alloc Host total (max_align cs) in
  let* _ := copy_all base offsets cs in
  ret (map (Z.add base) offsets).

(** Modelled from the spec: packing into device memory (the definition of
    [ToContiguousGPUMem] is in scratch_copy_impl.h): plan, one device
    allocation, the whole image assembled in a host staging region (whose
    address [staging] the host side provides and which is not taken from the
    scratchpad), then one asynchronous transfer of the image on the
    caller's stream. *)
Definition ToContiguousGPUMem (staging : Z) (stream : cudaStream_t)
  (cs : list Collection) : M S (list Z) :=
  let* (offsets, total) := lift (plan_from 0 cs) in
  let* base := call_Alloc GPU total (max_align cs) in
  let* _ := emit (EvStaging staging total) in
  let* _ := copy_all staging offsets cs in
  let* _ := cudaMemcpyAsync base staging total cudaMemcpyHostToDevice stream in
  ret (map (Z.add base) offsets).

(** [[
  auto ToContiguousHost(const Collections &...collections) {
    return ToContiguousHostMem( *this, collections...);
  }
  auto ToContiguousGPU(cudaStream_t stream, const Collections &...collections) {
    return ToContiguousGPUMem( *this, stream, collections...);
  }
]] *)
Definition ToContiguousHost (cs : list Collection) : M S (list Z) :=
  ToContiguousHostMem cs.

Definition ToContiguousGPU (staging : Z) (stream : cudaStream_t)
  (cs : list Collection) : M S (list Z) :=
  ToContiguousGPUMem staging stream cs.

End Packing.

(** ** Reading the log *)

Definition is_alloc (ev : Event) : bool :=
  match ev with EvAlloc _ _ _ => true | _ => false end.
Definition is_copy (ev : Event) : bool :=
  match ev with EvCopy _ _ => true | _ => false end.
Definition is_transfer (ev : Event) : bool :=
  match ev with EvMemcpyAsync _ _ _ _ _ => true | _ => false end.

Definition count_events (p : Event → bool) (l : list Event) : nat :=
  length (List.filter p l).

(** ** Concrete element types and a concrete scratchpad *)

Definition byte_of_Z (z : Z) : Byte.byte :=
  match Byte.of_N (Z.to_N (z mod 256)) with
  | Some b => b
  | None => Byte.x00
  end.

Fixpoint le_bytes (n : nat) (z : Z) : list Byte.byte :=
  match n with
  | O => []
  | Datatypes.S n' => byte_of_Z z :: le_bytes n' (z / 256)
  end.

(** [int32_t], [double] (by its bit pattern) and [char]. *)
Definition int32_t : ElemType :=
  {| carrier := Z; sizeof := 4; alignof := 4; repr := le_bytes 4 |}.
Definition double : ElemType :=
  {| carrier := Z; sizeof := 8; alignof := 8; repr := le_bytes 8 |}.
Definition char : ElemType :=
  {| carrier := Byte.byte; sizeof := 1; alignof := 1; repr := λ b, [b] |}.

(** A scratchpad over one arena [[bp_next, bp_limit)], the same for every
    memory kind: a request is served at the next aligned address, or refused
    when the arena is exhausted. *)
Record BumpPad := { bp_next : Z; bp_limit : Z }.

Global Instance BumpPad_Scratchpad : Scratchpad BumpPad :=
  λ _ bytes alignment s,
    let p := round_up (bp_next s) alignment in
    if decide (p + bytes ≤ bp_limit s)
    then (Ok p, {| bp_next := p + bytes; bp_limit := bp_limit s |})
    else (Err AllocationExhausted, s).

Definition world0 (limit : Z) : World BumpPad :=
  mkWorld {| bp_next := 4096; bp_limit := limit |} ∅ [].

(** An element type of half the address space, for layouts whose running
    total leaves the range of [size_t]. *)
Definition half_space : ElemType :=
  {| carrier := unit; sizeof := 2 ^ 63; alignof := 1; repr := λ _, [] |}.

(** The packing of the worked example: three [int32_t] then two [double]. *)
Definition ex_ints : Collection := {| c_type := int32_t; c_items := [1; 2; 3] |}.
Definition ex_doubles : Collection := {| c_type := double; c_items := [15; 25] |}.

Definition ex_char : Collection := {| c_type := char; c_items := [Byte.x61] |}.
Definition ex_no_doubles : Collection := {| c_type := double; c_items := [] |}.
Definition ex_one_int : Collection := {| c_type := int32_t; c_items := [7] |}.
Definition ex_half_spaces : Collection := {| c_type := half_space; c_items := [tt; tt] |}.

(** A [std::vector<int32_t>] of three elements stored at address 64, and an
    empty one. *)
Definition ex_vector : ArrayLike int32_t := Build_ArrayLike int32_t 64 [1; 2; 3].
Definition ex_empty_vector : ArrayLike int32_t := Build_ArrayLike int32_t 64 [].

(** ** Vocabulary of the statements *)

(** Sizes and alignments as C++ has them: positive. *)
Definition sized (T : ElemType) : Prop := 0 < sizeof T ∧ 0 < alignof T.
Definition sized_collection (c : Collection) : Prop := sized (c_type c).
Definition wf_collection (c : Collection) : Prop := wf_elem (c_type c).

(** [o] is the smallest multiple of [align] that is at least [lo]. *)
Definition least_aligned_from (align lo o : Z) : Prop :=
  (align | o) ∧ lo ≤ o ∧ ∀ x, lo ≤ x → (align | x) → o ≤ x.

(** The cursor after the walk, in unbounded integers. *)
Fixpoint cursor_after (cursor : Z) (cs : list Collection) : Z :=
  match cs with
  | [] => cursor
  | c :: cs' => cursor_after (round_up cursor (align_of c) + byte_size c) cs'
  end.

(** Collection [c] is stored at [addr] in memory [h]: element [i] is read
    back, as [sizeof] bytes, at [addr + i × sizeof]. *)
Definition stored_at (h : gmap Z Byte.byte) (addr : Z) (T : ElemType)
  (c : list (carrier T)) : Prop :=
  ∀ (i : nat) (x : carrier T), c !! i = Some x →
    load_bytes (addr + Z.of_nat i * sizeof T) (Z.to_nat (sizeof T)) h = Some (repr T x).

(** What a single-collection transfer into memory kind [alloc_type] leaves
    behind when its allocation returned [ptr]: the pointer is returned, the
    log shows the request of [size(c) × sizeof(T)] bytes and the copy, the
    collection is stored at [ptr], and no other byte of host memory
    changed. *)
Definition transferred {S} (alloc_type : AllocType) (T : ElemType)
  (c : list (carrier T)) (w : World S) (ptr : Z) (s' : S)
  (out : Result Z * World S) : Prop :=
  fst out = Ok ptr ∧
  pad (snd out) = s' ∧
  log (snd out) = log w ++ [EvAlloc alloc_type (size c * sizeof T) (alignof T);
                            EvCopy ptr (size c * sizeof T)] ∧
  stored_at (host (snd out)) ptr T c ∧
  (∀ k, k < ptr ∨ ptr + size c * sizeof T ≤ k → host (snd out) !! k = host w !! k).

(** The sum of the item volumes of a vector of shapes. *)
Definition sum_volumes (shapes : list TensorShape) : Z :=
  foldr Z.add 0 (map volume shapes).

(** The copies of the copy phase, as logged. *)
Definition copy_events (base : Z) (offsets : list Z) (cs : list Collection) : list Event :=
  zip_with (λ o c, EvCopy (base + o) (byte_size c)) offsets cs.

(** * Properties *)

(** ** Rounding *)

Lemma round_up_least (cursor align : Z) :
  0 < align → least_aligned_from align cursor (round_up cursor align).
Proof.
  intros Ha. unfold least_aligned_from, round_up.
  pose proof (Z.div_mod (cursor + align - 1) align ltac:(lia)) as Hdm.
  pose proof (Z.mod_pos_bound (cursor + align - 1) align Ha) as Hr.
  set (q := (cursor + align - 1) / align) in *.
  repeat split.
  - exists q. reflexivity.
  - lia.
  - intros x Hx [k ->]. apply Z.mul_le_mono_nonneg_r; [lia |].
    destruct (decide (q ≤ k)) as [| Hlt]; [assumption |]. exfalso.
    assert (k + 1 ≤ q) as Hk by lia.
    assert ((k + 1) * align ≤ q * align) by (apply Z.mul_le_mono_nonneg_r; lia).
    lia.
Qed.

Lemma round_up_ge (cursor align : Z) : 0 < align → cursor ≤ round_up cursor align.
Proof. intros Ha. apply (round_up_least cursor align Ha). Qed.

Lemma round_up_aligned (cursor align : Z) :
  0 < align → (align | cursor) → round_up cursor align = cursor.
Proof.
  intros Ha [k ->]. unfold round_up.
  replace (k * align + align - 1) with (align - 1 + k * align) by lia.
  rewrite Z.div_add by lia. rewrite Z.div_small by lia. lia.
Qed.

Lemma round_up_zero (align : Z) : 0 < align → round_up 0 align = 0.
Proof. intros Ha. apply round_up_aligned; [assumption | apply Z.divide_0_r]. Qed.

(** Rounding for a coarser alignment absorbs a previous rounding for a
    finer one. *)
Lemma round_up_absorb (cursor a b : Z) :
  0 < a → 0 < b → (a | b) → round_up (round_up cursor a) b = round_up cursor b.
Proof.
  intros Ha Hb Hab.
  destruct (round_up_least cursor a Ha) as (_ & Hge & Hmin).
  destruct (round_up_least cursor b Hb) as (Hdiv & Hge' & Hmin').
  destruct (round_up_least (round_up cursor a) b Hb) as (Hdiv2 & Hge2 & Hmin2).
  apply Z.le_antisymm.
  - apply Hmin2; [| assumption].
    apply Hmin; [assumption |]. by etrans.
  - apply Hmin'; [lia | assumption].
Qed.

(** ** The packing plan *)

Lemma byte_size_nonneg (c : Collection) : sized_collection c → 0 ≤ byte_size c.
Proof. intros [Hs _]. unfold byte_size, size. nia. Qed.

Lemma plan_from_nil (cursor : Z) : plan_from cursor [] = Ok ([], cursor).
Proof. reflexivity. Qed.

(** One step of the walk, read backwards. *)
Lemma plan_from_cons_Ok (cursor : Z) c cs offsets total :
  plan_from cursor (c :: cs) = Ok (offsets, total) →
  ∃ offsets',
    offsets = round_up cursor (align_of c) :: offsets' ∧
    round_up cursor (align_of c) + byte_size c ≤ SIZE_MAX ∧
    plan_from (round_up cursor (align_of c) + byte_size c) cs = Ok (offsets', total).
Proof.
  simpl. case_decide as Hfit; [| discriminate].
  destruct (plan_from _ cs) as [[offs t] | e] eqn:Hrest; [| discriminate].
  intros [= <- <-]. eauto.
Qed.

Lemma plan_from_cons_intro (cursor : Z) c cs offsets total :
  round_up cursor (align_of c) + byte_size c ≤ SIZE_MAX →
  plan_from (round_up cursor (align_of c) + byte_size c) cs = Ok (offsets, total) →
  plan_from cursor (c :: cs) = Ok (round_up cursor (align_of c) :: offsets, total).
Proof. intros Hfit Hrest. simpl. rewrite decide_True by assumption. by rewrite Hrest. Qed.

Lemma plan_from_length cs : ∀ cursor offsets total,
  plan_from cursor cs = Ok (offsets, total) → length offsets = length cs.
Proof.
  induction cs as [| c cs IH]; intros cursor offsets total H.
  - by injection H as <- _.
  - apply plan_from_cons_Ok in H as (offs' & -> & _ & H). simpl. f_equal. eauto.
Qed.

Lemma plan_from_total cs : ∀ cursor offsets total,
  plan_from cursor cs = Ok (offsets, total) → total = cursor_after cursor cs.
Proof.
  induction cs as [| c cs IH]; intros cursor offsets total H.
  - by injection H as _ <-.
  - apply plan_from_cons_Ok in H as (offs' & -> & _ & H). simpl. eauto.
Qed.

(** The walk only fails by overflow. *)
Lemma plan_from_Err cs : ∀ cursor e, plan_from cursor cs = Err e → e = Overflow.
Proof.
  induction cs as [| c cs IH]; intros cursor e; simpl; [discriminate |].
  case_decide; [| by intros [= <-]].
  destruct (plan_from _ cs) as [[offs t] | e'] eqn:Hrest; [discriminate |].
  intros [= <-]. eauto.
Qed.

Lemma cursor_after_ge cs : ∀ cursor,
  Forall sized_collection cs → cursor ≤ cursor_after cursor cs.
Proof.
  induction cs as [| c cs IH]; intros cursor Hwf; simpl; [lia |].
  apply Forall_cons in Hwf as [Hc Hcs].
  pose proof (round_up_ge cursor (align_of c) (proj2 Hc)).
  pose proof (byte_size_nonneg c Hc).
  specialize (IH (round_up cursor (align_of c) + byte_size c) Hcs). lia.
Qed.

(** The walk succeeds exactly when the running total stays representable,
    and overflows otherwise. *)
Lemma plan_from_fits cs : ∀ cursor,
  Forall sized_collection cs →
  cursor_after cursor cs ≤ SIZE_MAX →
  ∃ offsets, plan_from cursor cs = Ok (offsets, cursor_after cursor cs).
Proof.
  induction cs as [| c cs IH]; intros cursor Hwf Hfit; simpl in *; [eauto |].
  apply Forall_cons in Hwf as [Hc Hcs].
  pose proof (cursor_after_ge cs (round_up cursor (align_of c) + byte_size c) Hcs).
  rewrite decide_True by lia.
  destruct (IH _ Hcs Hfit) as [offs ->]. eauto.
Qed.

Lemma plan_from_total_fits cs : ∀ cursor offsets total,
  cursor ≤ SIZE_MAX →
  plan_from cursor cs = Ok (offsets, total) → total ≤ SIZE_MAX.
Proof.
  induction cs as [| c cs IH]; intros cursor offsets total Hc H.
  - by injection H as _ <-.
  - apply plan_from_cons_Ok in H as (offs' & -> & Hfit & H). eauto.
Qed.

Lemma plan_from_overflow cs : ∀ cursor,
  cursor ≤ SIZE_MAX →
  SIZE_MAX < cursor_after cursor cs →
  plan_from cursor cs = Err Overflow.
Proof.
  intros cursor Hc Hbig.
  destruct (plan_from cursor cs) as [[offs t] | e] eqn:H.
  - pose proof (plan_from_total_fits _ _ _ _ Hc H).
    apply plan_from_total in H. lia.
  - f_equal. by eapply plan_from_Err.
Qed.

(** Every offset, and the total, is at or after the starting cursor. *)
Lemma plan_from_lower cs : ∀ cursor offsets total,
  Forall sized_collection cs →
  plan_from cursor cs = Ok (offsets, total) →
  Forall (λ o, cursor ≤ o) offsets ∧ cursor ≤ total.
Proof.
  induction cs as [| c cs IH]; intros cursor offsets total Hwf H.
  - injection H as <- <-. split; [constructor | lia].
  - apply Forall_cons in Hwf as [Hc Hcs].
    apply plan_from_cons_Ok in H as (offs' & -> & _ & H).
    pose proof (round_up_ge cursor (align_of c) (proj2 Hc)).
    pose proof (byte_size_nonneg c Hc).
    destruct (IH _ _ _ Hcs H) as [Hall Htot]. split; [| lia].
    constructor; [assumption |].
    eapply Forall_impl; [exact Hall |]. simpl. intros; lia.
Qed.

(** The plan of a concatenation is the plan of the first part, resumed at
    its total for the second. *)
Lemma plan_from_app pre : ∀ post cursor offsets total,
  plan_from cursor (pre ++ post) = Ok (offsets, total) →
  ∃ offs_pre mid offs_post,
    plan_from cursor pre = Ok (offs_pre, mid) ∧
    plan_from mid post = Ok (offs_post, total) ∧
    offsets = offs_pre ++ offs_post.
Proof.
  induction pre as [| c pre IH]; intros post cursor offsets total H.
  - exists [], cursor, offsets. auto.
  - rewrite <- app_comm_cons in H.
    apply plan_from_cons_Ok in H as (offs' & -> & Hfit & H).
    destruct (IH _ _ _ _ H) as (o1 & mid & o2 & H1 & H2 & ->).
    exists (round_up cursor (align_of c) :: o1), mid, o2. split; [| auto].
    by apply plan_from_cons_intro.
Qed.

Lemma plan_from_app_intro pre : ∀ post cursor offs_pre mid offs_post total,
  plan_from cursor pre = Ok (offs_pre, mid) →
  plan_from mid post = Ok (offs_post, total) →
  plan_from cursor (pre ++ post) = Ok (offs_pre ++ offs_post, total).
Proof.
  induction pre as [| c pre IH]; intros post cursor offs_pre mid offs_post total H1 H2.
  - by injection H1 as <- <-.
  - apply plan_from_cons_Ok in H1 as (o1 & -> & Hfit & H1).
    rewrite <- !app_comm_cons. apply plan_from_cons_intro; eauto.
Qed.

(** Consecutive sub-ranges: the next one starts at the end of the previous
    one, rounded up for its own alignment. *)
Lemma plan_from_next cs : ∀ cursor offsets total i c_prev o_prev c o,
  plan_from cursor cs = Ok (offsets, total) →
  cs !! i = Some c_prev → offsets !! i = Some o_prev →
  cs !! Datatypes.S i = Some c → offsets !! Datatypes.S i = Some o →
  o = round_up (o_prev + byte_size c_prev) (align_of c).
Proof.
  induction cs as [| c0 cs IH]; intros cursor offsets total i c_prev o_prev c o H;
    [by intros [=] |].
  apply plan_from_cons_Ok in H as (offs' & -> & _ & H).
  destruct i as [| i]; simpl.
  - intros [= ->] [= <-] Hc Ho.
    destruct cs as [| c1 cs]; [done |].
    apply plan_from_cons_Ok in H as (offs'' & -> & _ & _).
    simpl in Hc, Ho. by injection Hc as <-; injection Ho as <-.
  - intros. eapply (IH _ _ _ i); eauto.
Qed.

(** Sub-ranges are laid out in input order and do not overlap. *)
Lemma plan_from_ordered cs : ∀ cursor offsets total i j ci oi oj,
  Forall sized_collection cs →
  plan_from cursor cs = Ok (offsets, total) →
  (i < j)%nat →
  cs !! i = Some ci → offsets !! i = Some oi → offsets !! j = Some oj →
  oi + byte_size ci ≤ oj.
Proof.
  induction cs as [| c0 cs IH]; intros cursor offsets total i j ci oi oj Hwf H Hij;
    [by intros [=] |].
  apply Forall_cons in Hwf as [Hc Hcs].
  apply plan_from_cons_Ok in H as (offs' & -> & _ & H).
  destruct j as [| j]; [lia |]. destruct i as [| i]; simpl.
  - intros [= <-] [= <-] Hoj.
    destruct (plan_from_lower _ _ _ _ Hcs H) as [Hall _].
    rewrite Forall_lookup in Hall. exact (Hall j oj Hoj).
  - intros. eapply (IH _ _ _ i j); eauto. lia.
Qed.

Lemma plan_from_within cs : ∀ cursor offsets total i ci oi,
  Forall sized_collection cs →
  plan_from cursor cs = Ok (offsets, total) →
  cs !! i = Some ci → offsets !! i = Some oi →
  cursor ≤ oi ∧ oi + byte_size ci ≤ total.
Proof.
  induction cs as [| c0 cs IH]; intros cursor offsets total i ci oi Hwf H;
    [by intros [=] |].
  apply Forall_cons in Hwf as [Hc Hcs].
  apply plan_from_cons_Ok in H as (offs' & -> & _ & H).
  pose proof (round_up_ge cursor (align_of c0) (proj2 Hc)).
  pose proof (byte_size_nonneg c0 Hc).
  destruct i as [| i]; simpl.
  - intros [= <-] [= <-]. destruct (plan_from_lower _ _ _ _ Hcs H). lia.
  - intros Hci Hoi. destruct (IH _ _ _ i ci oi Hcs H Hci Hoi). lia.
Qed.

(** ** The largest alignment *)

Lemma max_align_ge cs c : c ∈ cs → align_of c ≤ max_align cs.
Proof.
  induction 1 as [c cs | c c' cs _ IH]; simpl; lia.
Qed.

Lemma max_align_attained cs :
  cs ≠ [] → Forall sized_collection cs → ∃ c, c ∈ cs ∧ max_align cs = align_of c.
Proof.
  induction cs as [| c cs IH]; [done |]. intros _ Hwf.
  apply Forall_cons in Hwf as [Hc Hcs].
  change (max_align (c :: cs)) with (Z.max (align_of c) (max_align cs)).
  destruct cs as [| c' cs].
  - exists c. split; [left |]. change (max_align []) with 1.
    destruct Hc. unfold align_of. lia.
  - destruct (IH ltac:(done) Hcs) as (d & Hd & Heq).
    destruct (Z.max_spec (align_of c) (max_align (c' :: cs))) as [[_ Hm] | [_ Hm]].
    + exists d. split; [by right |]. congruence.
    + exists c. split; [left | assumption].
Qed.

(** ** Host memory *)

Lemma store_bytes_outside bs : ∀ a h k,
  k < a ∨ a + Z.of_nat (length bs) ≤ k → store_bytes a bs h !! k = h !! k.
Proof.
  induction bs as [| b bs IH]; intros a h k Hk; simpl in *; [reflexivity |].
  rewrite IH by lia. apply lookup_insert_ne. lia.
Qed.

Lemma load_store_bytes bs : ∀ a h,
  load_bytes a (length bs) (store_bytes a bs h) = Some bs.
Proof.
  induction bs as [| b bs IH]; intros a h; simpl; [reflexivity |].
  rewrite store_bytes_outside by lia. rewrite lookup_insert_eq.
  by rewrite IH.
Qed.

(** A load only looks at the bytes of its range. *)
Lemma load_bytes_ext n : ∀ a h h',
  (∀ k, a ≤ k < a + Z.of_nat n → h !! k = h' !! k) →
  load_bytes a n h = load_bytes a n h'.
Proof.
  induction n as [| n IH]; intros a h h' Hagree; simpl; [reflexivity |].
  rewrite (Hagree a) by lia.
  rewrite (IH (a + 1) h h'); [reflexivity |].
  intros k Hk. apply Hagree. lia.
Qed.

Lemma copy_elems_outside T c : ∀ ptr h k,
  wf_elem T →
  k < ptr ∨ ptr + size c * sizeof T ≤ k →
  copy_elems T c ptr h !! k = h !! k.
Proof.
  intros ptr h k (Hs & _ & Hlen). revert ptr h.
  induction c as [| x c IH]; intros ptr h Hk; simpl; [reflexivity |].
  unfold size in *. simpl length in Hk.
  rewrite IH by nia. apply store_bytes_outside. rewrite Hlen. nia.
Qed.

Lemma copy_elems_stored T c : ∀ ptr h,
  wf_elem T → stored_at (copy_elems T c ptr h) ptr T c.
Proof.
  intros ptr h Hwf. pose proof Hwf as (Hs & _ & Hlen). revert ptr h.
  induction c as [| x c IH]; intros ptr h i y Hi; [done |].
  destruct i as [| i]; simpl in Hi; simpl copy_elems.
  - injection Hi as <-. change (Z.of_nat 0) with 0.
    rewrite (load_bytes_ext _ _ _ (store_bytes ptr (repr T x) h)).
    + rewrite <- (Hlen x), Nat2Z.id, Z.add_0_r. apply load_store_bytes.
    + intros k Hk. apply copy_elems_outside; [assumption |]. lia.
  - rewrite Nat2Z.inj_succ.
    replace (ptr + Z.succ (Z.of_nat i) * sizeof T)
      with (ptr + sizeof T + Z.of_nat i * sizeof T) by lia.
    by apply IH.
Qed.

(** Where an element of a stored collection lies. *)
Lemma element_within {A} (c : list A) (i : nat) (x : A) (sz : Z) :
  0 < sz → c !! i = Some x →
  0 ≤ Z.of_nat i * sz ∧ Z.of_nat i * sz + sz ≤ size c * sz.
Proof.
  intros Hsz Hi. apply lookup_lt_Some in Hi. unfold size. nia.
Qed.

Lemma stored_at_ext h h' addr T c :
  0 < sizeof T →
  (∀ k, addr ≤ k < addr + size c * sizeof T → h !! k = h' !! k) →
  stored_at h addr T c → stored_at h' addr T c.
Proof.
  intros Hs Hagree Hst i x Hi. rewrite <- (Hst i x Hi).
  symmetry. apply load_bytes_ext. intros k Hk. apply Hagree.
  pose proof (element_within c i x (sizeof T) Hs Hi). lia.
Qed.

(** ** Runs of the methods *)

Section Runs.

Context {S : Type} `{!Scratchpad S}.

Lemma call_Alloc_run alloc_type bytes alignment (w : World S) r s' :
  Alloc alloc_type bytes alignment (pad w) = (r, s') →
  call_Alloc alloc_type bytes alignment w =
    (r, mkWorld s' (host w) (log w ++ [EvAlloc alloc_type bytes alignment])).
Proof. intros H. unfold call_Alloc. by rewrite H. Qed.

Lemma Allocate_run T alloc_type count alignment (w : World S) r s' :
  Alloc alloc_type (to_size_t (count * sizeof T)) (default (alignof T) alignment) (pad w)
    = (r, s') →
  Allocate T alloc_type count alignment w =
    (r, mkWorld s' (host w)
          (log w ++ [EvAlloc alloc_type (to_size_t (count * sizeof T))
                             (default (alignof T) alignment)])).
Proof. apply call_Alloc_run. Qed.

(** The copy phase: one copy per collection, every collection stored in
    its sub-range, nothing written outside [[base + cursor, base + total)]. *)
Lemma copy_all_run cs : ∀ cursor offsets total base (w : World S),
  Forall wf_collection cs →
  plan_from cursor cs = Ok (offsets, total) →
  ∃ h',
    copy_all base offsets cs w =
      (Ok tt, mkWorld (pad w) h' (log w ++ copy_events base offsets cs)) ∧
    (∀ k, k < base + cursor ∨ base + total ≤ k → h' !! k = host w !! k) ∧
    (∀ i c o, cs !! i = Some c → offsets !! i = Some o →
              stored_at h' (base + o) (c_type c) (c_items c)).
Proof.
  induction cs as [| c cs IH]; intros cursor offsets total base w Hwf Hplan.
  - injection Hplan as <- <-. exists (host w). split; [| split].
    + simpl. unfold ret, copy_events. simpl. rewrite app_nil_r. by destruct w.
    + reflexivity.
    + by intros i c o [=].
  - apply Forall_cons in Hwf as [Hc Hcs].
    assert (Forall sized_collection cs) as Hsz.
    { eapply Forall_impl; [exact Hcs |]. intros d (? & ? & _). by split. }
    pose proof Hc as (Hs & Ha & _).
    apply plan_from_cons_Ok in Hplan as (offs' & -> & _ & Hplan).
    set (o := round_up cursor (align_of c)) in *.
    pose proof (round_up_ge cursor (align_of c) Ha) as Hge. fold o in Hge.
    assert (0 ≤ byte_size c) as Hbs by (apply byte_size_nonneg; by split).
    destruct (plan_from_lower _ _ _ _ Hsz Hplan) as [_ Htot].
    set (w1 := mkWorld (pad w) (copy_elems (c_type c) (c_items c) (base + o) (host w))
                       (log w ++ [EvCopy (base + o) (byte_size c)])).
    destruct (IH _ _ _ base w1 Hcs Hplan) as (h' & Hrun & Hout & Hst).
    exists h'. split; [| split].
    + simpl. unfold bind, std_copy.
      change (Z.of_nat (length (c_items c)) * sizeof (c_type c)) with (byte_size c).
      fold w1. rewrite Hrun. simpl. unfold copy_events. simpl. by rewrite <- app_assoc.
    + intros k Hk. rewrite Hout by lia. simpl.
      apply copy_elems_outside; [exact Hc |]. fold (byte_size c). lia.
    + intros [| i] d od; simpl.
      * intros [= <-] [= <-].
        apply (stored_at_ext (host w1)); [assumption | | apply copy_elems_stored; exact Hc].
        intros k Hk. symmetry. apply Hout. fold (byte_size c) in Hk. lia.
      * apply Hst.
Qed.

Lemma ToContiguousHost_run cs offsets total (w : World S) base s' :
  Forall wf_collection cs →
  plan_from 0 cs = Ok (offsets, total) →
  Alloc Host total (max_align cs) (pad w) = (Ok base, s') →
  ∃ h',
    ToContiguousHost cs w =
      (Ok (map (Z.add base) offsets),
       mkWorld s' h' (log w ++ EvAlloc Host total (max_align cs)
                             :: copy_events base offsets cs)) ∧
    (∀ k, k < base ∨ base + total ≤ k → h' !! k = host w !! k) ∧
    (∀ i c o, cs !! i = Some c → offsets !! i = Some o →
              stored_at h' (base + o) (c_type c) (c_items c)).
Proof.
  intros Hwf Hplan Halloc.
  set (w1 := mkWorld s' (host w) (log w ++ [EvAlloc Host total (max_align cs)])).
  destruct (copy_all_run cs 0 offsets total base w1 Hwf Hplan) as (h' & Hrun & Hout & Hst).
  exists h'. split; [| split].
  - unfold ToContiguousHost, ToContiguousHostMem, bind, lift. rewrite Hplan.
    rewrite (call_Alloc_run _ _ _ _ _ _ Halloc). fold w1. rewrite Hrun.
    unfold ret. simpl. by rewrite <- app_assoc.
  - intros k Hk. apply Hout. lia.
  - exact Hst.
Qed.

Lemma ToContiguousGPU_run staging stream cs offsets total (w : World S) base s' :
  Forall wf_collection cs →
  plan_from 0 cs = Ok (offsets, total) →
  Alloc GPU total (max_align cs) (pad w) = (Ok base, s') →
  ∃ h',
    ToContiguousGPU staging stream cs w =
      (Ok (map (Z.add base) offsets),
       mkWorld s' h'
         (log w ++ [EvAlloc GPU total (max_align cs); EvStaging staging total]
                ++ copy_events staging offsets cs
                ++ [EvMemcpyAsync base staging total cudaMemcpyHostToDevice stream])) ∧
    (∀ k, k < staging ∨ staging + total ≤ k → h' !! k = host w !! k) ∧
    (∀ i c o, cs !! i = Some c → offsets !! i = Some o →
              stored_at h' (staging + o) (c_type c) (c_items c)).
Proof.
  intros Hwf Hplan Halloc.
  set (w1 := mkWorld s' (host w)
               ((log w ++ [EvAlloc GPU total (max_align cs)]) ++ [EvStaging staging total])).
  destruct (copy_all_run cs 0 offsets total staging w1 Hwf Hplan) as (h' & Hrun & Hout & Hst).
  exists h'. split; [| split].
  - unfold ToContiguousGPU, ToContiguousGPUMem, bind, lift. rewrite Hplan.
    rewrite (call_Alloc_run _ _ _ _ _ _ Halloc). unfold emit at 1. simpl pad. simpl host.
    simpl log. fold w1. rewrite Hrun.
    unfold cudaMemcpyAsync, emit, ret. simpl.
    f_equal. f_equal. rewrite <- !app_assoc. reflexivity.
  - intros k Hk. apply Hout. lia.
  - exact Hst.
Qed.

(** An overflowing plan ends the operation where it started. *)
Lemma ToContiguous_plan_failure staging stream cs (w : World S) e :
  plan_from 0 cs = Err e →
  ToContiguousHost cs w = (Err e, w) ∧
  ToContiguousGPU staging stream cs w = (Err e, w).
Proof.
  intros Hplan.
  unfold ToContiguousHost, ToContiguousHostMem, ToContiguousGPU, ToContiguousGPUMem,
    bind, lift.
  by rewrite Hplan.
Qed.

(** A refused allocation ends the operation after the one request. *)
Lemma ToContiguousHost_alloc_failure cs offsets total (w : World S) e s' :
  plan_from 0 cs = Ok (offsets, total) →
  Alloc Host total (max_align cs) (pad w) = (Err e, s') →
  ToContiguousHost cs w =
    (Err e, mkWorld s' (host w) (log w ++ [EvAlloc Host total (max_align cs)])).
Proof.
  intros Hplan Halloc.
  unfold ToContiguousHost, ToContiguousHostMem, bind, lift. rewrite Hplan.
  by rewrite (call_Alloc_run _ _ _ _ _ _ Halloc).
Qed.

Lemma ToContiguousGPU_alloc_failure staging stream cs offsets total (w : World S) e s' :
  plan_from 0 cs = Ok (offsets, total) →
  Alloc GPU total (max_align cs) (pad w) = (Err e, s') →
  ToContiguousGPU staging stream cs w =
    (Err e, mkWorld s' (host w) (log w ++ [EvAlloc GPU total (max_align cs)])).
Proof.
  intros Hplan Halloc.
  unfold ToContiguousGPU, ToContiguousGPUMem, bind, lift. rewrite Hplan.
  by rewrite (call_Alloc_run _ _ _ _ _ _ Halloc).
Qed.

End Runs.

(** ** Counting calls in the log *)

Lemma count_events_app p l1 l2 :
  count_events p (l1 ++ l2) = (count_events p l1 + count_events p l2)%nat.
Proof. unfold count_events. by rewrite List.filter_app, length_app. Qed.

Lemma copy_events_counts base offsets : ∀ cs,
  length offsets = length cs →
  count_events is_copy (copy_events base offsets cs) = length cs ∧
  count_events is_alloc (copy_events base offsets cs) = 0%nat ∧
  count_events is_transfer (copy_events base offsets cs) = 0%nat.
Proof.
  unfold count_events, copy_events.
  induction offsets as [| o offsets IH]; intros [| c cs] Hlen; simpl in *; try done.
  destruct (IH cs) as (-> & -> & ->); [lia | done].
Qed.

Lemma copy_events_lookup base offsets cs i c o :
  cs !! i = Some c → offsets !! i = Some o →
  copy_events base offsets cs !! i = Some (EvCopy (base + o) (byte_size c)).
Proof.
  intros Hc Ho. unfold copy_events. rewrite lookup_zip_with, Ho. simpl. by rewrite Hc.
Qed.

Lemma wf_sized_collections cs : Forall wf_collection cs → Forall sized_collection cs.
Proof. intros H. eapply Forall_impl; [exact H |]. intros c (? & ? & _). by split. Qed.

(** The plan only depends on the cursor through its first rounding. *)
Lemma plan_from_same_start c cs cursor cursor' :
  round_up cursor (align_of c) = round_up cursor' (align_of c) →
  plan_from cursor (c :: cs) = plan_from cursor' (c :: cs).
Proof. intros H. simpl. by rewrite H. Qed.

(** A plan that succeeds kept every running total representable. *)
Lemma plan_from_prefix_fits cs offsets total (n : nat) :
  plan_from 0 cs = Ok (offsets, total) → cursor_after 0 (take n cs) ≤ SIZE_MAX.
Proof.
  intros Hplan. rewrite <- (take_drop n cs) in Hplan.
  apply plan_from_app in Hplan as (o1 & mid & o2 & H1 & _ & _).
  rewrite <- (plan_from_total _ _ _ _ H1).
  eapply plan_from_total_fits; [| exact H1]. unfold SIZE_MAX. lia.
Qed.

(** The copy phase logs its copies whatever the collections are. *)
Lemma copy_all_log {S : Type} `{!Scratchpad S} offsets : ∀ cs base (w : World S),
  ∃ h', copy_all base offsets cs w =
          (Ok tt, mkWorld (pad w) h' (log w ++ copy_events base offsets cs)).
Proof.
  induction offsets as [| o offsets IH]; intros cs base w.
  - exists (host w). simpl. unfold ret, copy_events. simpl.
    rewrite app_nil_r. by destruct w.
  - destruct cs as [| c cs].
    + exists (host w). simpl. unfold ret, copy_events. simpl.
      rewrite app_nil_r. by destruct w.
    + simpl. unfold bind, std_copy.
      match goal with |- context [copy_all base offsets cs ?w1] =>
        destruct (IH cs base w1) as [h' ->] end.
      exists h'. simpl. unfold copy_events. simpl. by rewrite <- app_assoc.
Qed.

(** The pointers a packing returns, whatever the elements are. *)
Lemma ToContiguousHost_result {S : Type} `{!Scratchpad S} cs offsets total
  (w : World S) base s' :
  plan_from 0 cs = Ok (offsets, total) →
  Alloc Host total (max_align cs) (pad w) = (Ok base, s') →
  fst (ToContiguousHost cs w) = Ok (map (Z.add base) offsets).
Proof.
  intros Hplan Halloc.
  unfold ToContiguousHost, ToContiguousHostMem, bind, lift. rewrite Hplan.
  rewrite (call_Alloc_run _ _ _ _ _ _ Halloc).
  match goal with |- context [copy_all base offsets cs ?w1] =>
    destruct (copy_all_log offsets cs base w1) as [h' ->] end.
  reflexivity.
Qed.

Lemma ToContiguousGPU_result {S : Type} `{!Scratchpad S} staging stream cs offsets total
  (w : World S) base s' :
  plan_from 0 cs = Ok (offsets, total) →
  Alloc GPU total (max_align cs) (pad w) = (Ok base, s') →
  fst (ToContiguousGPU staging stream cs w) = Ok (map (Z.add base) offsets).
Proof.
  intros Hplan Halloc.
  unfold ToContiguousGPU, ToContiguousGPUMem, bind, lift. rewrite Hplan.
  rewrite (call_Alloc_run _ _ _ _ _ _ Halloc). unfold emit at 1.
  match goal with |- context [copy_all staging offsets cs ?w1] =>
    destruct (copy_all_log offsets cs staging w1) as [h' ->] end.
  reflexivity.
Qed.

(** * The contiguous-packing operation *)

Section Packing_properties.

Context {S : Type} `{!Scratchpad S}.

(** C1. The layout of a packing. The first offset is the cursor 0 rounded up
    for the first alignment (hence 0); every later offset is the smallest
    multiple of its collection's alignment at or after the end of the
    previous sub-range; sub-ranges follow the input order and are pairwise
    disjoint; and both packing operations return, in input order, one
    pointer per collection, [base + offset_i], where [base] is the address
    the single allocation returned. *)
Theorem packing_layout (cs : list Collection) (offsets : list Z) (total : Z) :
  Forall sized_collection cs →
  plan_from 0 cs = Ok (offsets, total) →
  length offsets = length cs ∧
  (∀ c o, cs !! 0%nat = Some c → offsets !! 0%nat = Some o →
     o = round_up 0 (align_of c) ∧ o = 0) ∧
  (∀ i c_prev o_prev c o,
     cs !! i = Some c_prev → offsets !! i = Some o_prev →
     cs !! (i + 1)%nat = Some c → offsets !! (i + 1)%nat = Some o →
     least_aligned_from (align_of c) (o_prev + byte_size c_prev) o) ∧
  (∀ i j ci oi oj,
     (i < j)%nat → cs !! i = Some ci → offsets !! i = Some oi → offsets !! j = Some oj →
     oi + byte_size ci ≤ oj) ∧
  (∀ i j ci cj oi oj x,
     i ≠ j → cs !! i = Some ci → offsets !! i = Some oi →
     cs !! j = Some cj → offsets !! j = Some oj →
     oi ≤ x < oi + byte_size ci → ¬ (oj ≤ x < oj + byte_size cj)) ∧
  (∀ (w : World S) base s',
     Alloc Host total (max_align cs) (pad w) = (Ok base, s') →
     fst (ToContiguousHost cs w) = Ok (map (Z.add base) offsets) ∧
     length (map (Z.add base) offsets) = length cs) ∧
  (∀ (w : World S) staging stream base s',
     Alloc GPU total (max_align cs) (pad w) = (Ok base, s') →
     fst (ToContiguousGPU staging stream cs w) = Ok (map (Z.add base) offsets) ∧
     length (map (Z.add base) offsets) = length cs).
Proof.
  intros Hsz Hplan.
  pose proof (plan_from_length _ _ _ _ Hplan) as Hlen.
  assert (∀ i j ci oi oj,
     (i < j)%nat → cs !! i = Some ci → offsets !! i = Some oi → offsets !! j = Some oj →
     oi + byte_size ci ≤ oj) as Hord.
  { intros. eapply plan_from_ordered; eauto. }
  split; [exact Hlen |]. split; [| split; [| split; [exact Hord | split; [| split]]]].
  - intros c o Hc Ho. destruct cs as [| c0 cs']; [done |].
    apply plan_from_cons_Ok in Hplan as (offs' & -> & _ & _).
    injection Hc as <-. injection Ho as <-.
    apply Forall_cons in Hsz as [[_ Ha] _].
    split; [reflexivity | by apply round_up_zero].
  - intros i c_prev o_prev c o Hcp Hop Hc Ho.
    replace (i + 1)%nat with (Datatypes.S i) in Hc, Ho by lia.
    rewrite (plan_from_next _ _ _ _ _ _ _ _ _ Hplan Hcp Hop Hc Ho).
    apply round_up_least.
    rewrite Forall_lookup in Hsz. exact (proj2 (Hsz _ _ Hc)).
  - intros i j ci cj oi oj x Hij Hci Hoi Hcj Hoj Hx Hx'.
    destruct (decide (i < j)%nat).
    + pose proof (Hord i j ci oi oj ltac:(assumption) Hci Hoi Hoj). lia.
    + pose proof (Hord j i cj oj oi ltac:(lia) Hcj Hoj Hoi). lia.
  - intros w base s' Halloc.
    split; [by eapply ToContiguousHost_result | by rewrite length_map].
  - intros w staging stream base s' Halloc.
    split; [by eapply ToContiguousGPU_result | by rewrite length_map].
Qed.

(** C2. One allocation per packing. The total is the cursor after the last
    collection; the requested alignment is the largest of the collections'
    alignments (one byte when there is none); the operation issues exactly
    one allocation of the destination kind with these arguments; and for a
    host destination the allocation is followed by one copy per collection,
    collection [i] to [base + offset_i], where it is then stored. *)
Theorem packing_one_allocation (cs : list Collection) (offsets : list Z) (total : Z)
  (w : World S) :
  Forall wf_collection cs →
  plan_from 0 cs = Ok (offsets, total) →
  total = cursor_after 0 cs ∧
  (cs = [] → max_align cs = 1) ∧
  (∀ c, c ∈ cs → align_of c ≤ max_align cs) ∧
  (cs ≠ [] → ∃ c, c ∈ cs ∧ max_align cs = align_of c) ∧
  (∀ base s',
     Alloc Host total (max_align cs) (pad w) = (Ok base, s') →
     let w' := snd (ToContiguousHost cs w) in
     let issued := EvAlloc Host total (max_align cs) :: copy_events base offsets cs in
     log w' = log w ++ issued ∧
     count_events is_alloc issued = 1%nat ∧
     count_events is_copy issued = length cs ∧
     count_events is_transfer issued = 0%nat ∧
     (∀ i c o, cs !! i = Some c → offsets !! i = Some o →
        copy_events base offsets cs !! i = Some (EvCopy (base + o) (byte_size c)) ∧
        stored_at (host w') (base + o) (c_type c) (c_items c))) ∧
  (∀ staging stream base s',
     Alloc GPU total (max_align cs) (pad w) = (Ok base, s') →
     ∃ issued,
       log (snd (ToContiguousGPU staging stream cs w)) = log w ++ issued ∧
       List.filter is_alloc issued = [EvAlloc GPU total (max_align cs)]).
Proof.
  intros Hwf Hplan. pose proof (wf_sized_collections cs Hwf) as Hsz.
  pose proof (plan_from_length _ _ _ _ Hplan) as Hlen.
  split; [by eapply plan_from_total |].
  split; [by intros -> |].
  split; [apply max_align_ge |].
  split; [intros Hne; by apply max_align_attained |].
  split.
  - intros base s' Halloc.
    destruct (ToContiguousHost_run cs offsets total w base s' Hwf Hplan Halloc)
      as (h' & Hrun & _ & Hst).
    rewrite Hrun. simpl.
    destruct (copy_events_counts base offsets cs Hlen) as (Hc & Ha & Ht).
    split; [reflexivity |].
    change (EvAlloc Host total (max_align cs) :: copy_events base offsets cs)
      with ([EvAlloc Host total (max_align cs)] ++ copy_events base offsets cs).
    rewrite !count_events_app, Hc, Ha, Ht.
    repeat split; try reflexivity.
    + by apply copy_events_lookup.
    + by eapply Hst.
  - intros staging stream0 base s' Halloc.
    destruct (ToContiguousGPU_run staging stream0 cs offsets total w base s' Hwf Hplan Halloc)
      as (h' & Hrun & _).
    rewrite Hrun. simpl. eexists. split; [reflexivity |].
    destruct (copy_events_counts staging offsets cs Hlen) as (_ & Ha & _).
    simpl. rewrite List.filter_app. simpl.
    unfold count_events in Ha. apply nil_length_inv in Ha. by rewrite Ha.
Qed.

(** C3. Packing into device memory with a stream. After the one device
    allocation the whole image is assembled in the host staging region, one
    host-side copy per collection, each collection stored at
    [staging + offset_i] inside the [total] bytes of the region; then one
    asynchronous transfer of [total] bytes from the staging region to the
    device allocation is issued on the caller's stream, as the last call.
    For any number of collections, two in particular, the log shows one
    allocation and one transfer. *)
Theorem packing_device_single_transfer (cs : list Collection) (offsets : list Z)
  (total : Z) (w : World S) (staging : Z) (stream : cudaStream_t) (base : Z) (s' : S) :
  Forall wf_collection cs →
  plan_from 0 cs = Ok (offsets, total) →
  Alloc GPU total (max_align cs) (pad w) = (Ok base, s') →
  let w' := snd (ToContiguousGPU staging stream cs w) in
  let transfer := EvMemcpyAsync base staging total cudaMemcpyHostToDevice stream in
  let issued := [EvAlloc GPU total (max_align cs); EvStaging staging total]
                  ++ copy_events staging offsets cs ++ [transfer] in
  log w' = log w ++ issued ∧
  count_events is_alloc issued = 1%nat ∧
  count_events is_copy issued = length cs ∧
  count_events is_transfer issued = 1%nat ∧
  List.filter is_transfer issued = [transfer] ∧
  (∀ i c o, cs !! i = Some c → offsets !! i = Some o →
     copy_events staging offsets cs !! i = Some (EvCopy (staging + o) (byte_size c)) ∧
     0 ≤ o ∧ o + byte_size c ≤ total ∧
     stored_at (host w') (staging + o) (c_type c) (c_items c)).
Proof.
  intros Hwf Hplan Halloc. pose proof (wf_sized_collections cs Hwf) as Hsz.
  pose proof (plan_from_length _ _ _ _ Hplan) as Hlen.
  destruct (ToContiguousGPU_run staging stream cs offsets total w base s' Hwf Hplan Halloc)
    as (h' & Hrun & _ & Hst).
  simpl. rewrite Hrun. simpl.
  destruct (copy_events_counts staging offsets cs Hlen) as (Hc & Ha & Ht).
  split; [reflexivity |].
  change (EvAlloc GPU total (max_align cs) :: EvStaging staging total
            :: copy_events staging offsets cs
            ++ [EvMemcpyAsync base staging total cudaMemcpyHostToDevice stream])
    with ([EvAlloc GPU total (max_align cs); EvStaging staging total]
            ++ copy_events staging offsets cs
            ++ [EvMemcpyAsync base staging total cudaMemcpyHostToDevice stream]).
  rewrite !count_events_app, Hc, Ha, Ht.
  split; [reflexivity |]. split; [unfold count_events; simpl; lia |].
  split; [reflexivity |]. split.
  - rewrite !List.filter_app. unfold count_events in Ht.
    apply nil_length_inv in Ht. by rewrite Ht.
  - intros i c o Hci Hoi. split; [by apply copy_events_lookup |].
    destruct (plan_from_within _ _ _ _ _ _ _ Hsz Hplan Hci Hoi). eauto.
Qed.

(** C4 (as amended). A zero-length collection [z] between [pre] and
    [post]. It takes zero bytes; its offset is the cursor at its turn
    rounded up for its own alignment, and the pointer it receives from
    either packing operation is the base plus that offset; the collections
    after it are laid out exactly as the plan lays them out from that
    rounded cursor, the next one at that cursor rounded up for its own
    alignment, so that [z] reaches them through its own rounding only. When
    that rounding does not move the cursor, or [z]'s alignment divides the
    alignment of the next collection, all offsets are those of the packing
    without [z]; otherwise the next collection may be moved. *)
Theorem zero_length_collection (pre post : list Collection) (z : Collection)
  (offsets : list Z) (total : Z) :
  Forall wf_collection (pre ++ z :: post) →
  c_items z = [] →
  plan_from 0 (pre ++ z :: post) = Ok (offsets, total) →
  byte_size z = 0 ∧
  ∃ offs_pre cursor offs_post,
    let o_z := round_up cursor (align_of z) in
    plan_from 0 pre = Ok (offs_pre, cursor) ∧
    offsets = offs_pre ++ o_z :: offs_post ∧
    plan_from o_z post = Ok (offs_post, total) ∧
    (∀ next o_next, post !! 0%nat = Some next → offs_post !! 0%nat = Some o_next →
       o_next = round_up o_z (align_of next)) ∧
    (∀ (w : World S) base s',
       Alloc Host total (max_align (pre ++ z :: post)) (pad w) = (Ok base, s') →
       ∃ ptrs, fst (ToContiguousHost (pre ++ z :: post) w) = Ok ptrs ∧
               ptrs !! length pre = Some (base + o_z)) ∧
    (∀ (w : World S) staging stream base s',
       Alloc GPU total (max_align (pre ++ z :: post)) (pad w) = (Ok base, s') →
       ∃ ptrs, fst (ToContiguousGPU staging stream (pre ++ z :: post) w) = Ok ptrs ∧
               ptrs !! length pre = Some (base + o_z)) ∧
    (o_z = cursor → plan_from 0 (pre ++ post) = Ok (offs_pre ++ offs_post, total)) ∧
    (∀ next post', post = next :: post' → (align_of z | align_of next) →
       plan_from 0 (pre ++ post) = Ok (offs_pre ++ offs_post, total)).
Proof.
  intros Hwf Hz Hplan.
  assert (byte_size z = 0) as Hbs by (unfold byte_size; by rewrite Hz).
  split; [exact Hbs |].
  pose proof Hplan as Hplan0.
  apply plan_from_app in Hplan as (offs_pre & cursor & offs2 & Hpre & Hrest & ->).
  apply plan_from_cons_Ok in Hrest as (offs_post & -> & _ & Hpost).
  rewrite Hbs, Z.add_0_r in Hpost.
  exists offs_pre, cursor, offs_post. simpl.
  split; [exact Hpre |]. split; [reflexivity |]. split; [exact Hpost |].
  assert (∀ base : Z,
            map (Z.add base) (offs_pre ++ round_up cursor (align_of z) :: offs_post)
              !! length pre = Some (base + round_up cursor (align_of z))) as Hptr.
  { intros base.
    rewrite list_lookup_fmap, lookup_app_r;
      rewrite (plan_from_length _ _ _ _ Hpre); [| lia].
    by rewrite Nat.sub_diag. }
  split; [| split; [| split; [| split]]].
  - intros next o_next Hn Ho. destruct post as [| n post']; [done |].
    apply plan_from_cons_Ok in Hpost as (offs' & -> & _ & _).
    simpl in Hn, Ho. by injection Hn as <-; injection Ho as <-.
  - intros w base s' Halloc. eexists. split; [| apply Hptr].
    by eapply ToContiguousHost_result.
  - intros w staging stream base s' Halloc. eexists. split; [| apply Hptr].
    by eapply ToContiguousGPU_result.
  - intros Heq. rewrite Heq in Hpost. by eapply plan_from_app_intro.
  - intros next post' -> Hdiv.
    eapply plan_from_app_intro; [exact Hpre |].
    rewrite <- Hpost. apply plan_from_same_start. symmetry.
    apply Forall_app in Hwf as [_ Hwf].
    apply Forall_cons in Hwf as [(_ & Haz & _) Hwf].
    apply Forall_cons in Hwf as [(_ & Han & _) _].
    by apply round_up_absorb.
Qed.

(** C5. Failures of a packing. When the running total leaves the range of
    [size_t] at some collection, both operations fail with [Overflow] in the
    world they started in: nothing was requested, copied or transferred.
    When the single allocation is refused, the operation fails with the
    allocator's error; the request is the only call it made, host memory is
    as before, and no copy or transfer was issued. In every run the first
    call, if there is any, is the allocation. *)
Theorem packing_failures (cs : list Collection) (w : World S)
  (staging : Z) (stream : cudaStream_t) :
  ((∃ n : nat, SIZE_MAX < cursor_after 0 (take n cs)) →
     ToContiguousHost cs w = (Err Overflow, w) ∧
     ToContiguousGPU staging stream cs w = (Err Overflow, w)) ∧
  (∀ offsets total e s',
     plan_from 0 cs = Ok (offsets, total) →
     Alloc Host total (max_align cs) (pad w) = (Err e, s') →
     let issued := [EvAlloc Host total (max_align cs)] in
     ToContiguousHost cs w = (Err e, mkWorld s' (host w) (log w ++ issued)) ∧
     count_events is_copy issued = 0%nat ∧ count_events is_transfer issued = 0%nat) ∧
  (∀ offsets total e s',
     plan_from 0 cs = Ok (offsets, total) →
     Alloc GPU total (max_align cs) (pad w) = (Err e, s') →
     let issued := [EvAlloc GPU total (max_align cs)] in
     ToContiguousGPU staging stream cs w = (Err e, mkWorld s' (host w) (log w ++ issued)) ∧
     count_events is_copy issued = 0%nat ∧ count_events is_transfer issued = 0%nat) ∧
  (∃ issued, log (snd (ToContiguousHost cs w)) = log w ++ issued ∧
             (issued = [] ∨ ∃ bytes alignment rest,
                 issued = EvAlloc Host bytes alignment :: rest ∧
                 count_events is_alloc rest = 0%nat)) ∧
  (∃ issued, log (snd (ToContiguousGPU staging stream cs w)) = log w ++ issued ∧
             (issued = [] ∨ ∃ bytes alignment rest,
                 issued = EvAlloc GPU bytes alignment :: rest ∧
                 count_events is_alloc rest = 0%nat)).
Proof.
  split; [| split; [| split; [| split]]].
  - intros [n Hn].
    apply ToContiguous_plan_failure.
    destruct (plan_from 0 cs) as [[offs t] | e] eqn:Hplan.
    + pose proof (plan_from_prefix_fits cs offs t n Hplan). lia.
    + f_equal. by eapply plan_from_Err.
  - intros offsets total e s' Hplan Halloc. simpl.
    split; [by eapply ToContiguousHost_alloc_failure | done].
  - intros offsets total e s' Hplan Halloc. simpl.
    split; [by eapply ToContiguousGPU_alloc_failure | done].
  - destruct (plan_from 0 cs) as [[offs t] | e] eqn:Hplan.
    + destruct (Alloc Host t (max_align cs) (pad w)) as [[base | e] s'] eqn:Halloc.
      * unfold ToContiguousHost, ToContiguousHostMem, bind, lift. rewrite Hplan.
        rewrite (call_Alloc_run _ _ _ _ _ _ Halloc).
        match goal with |- context [copy_all base offs cs ?w1] =>
          destruct (copy_all_log offs cs base w1) as [h' ->] end.
        simpl. eexists. rewrite <- app_assoc. split; [reflexivity |].
        right. eexists _, _, _. split; [reflexivity |].
        apply (copy_events_counts base offs cs). by eapply plan_from_length.
      * rewrite (ToContiguousHost_alloc_failure _ _ _ _ _ _ Hplan Halloc). simpl.
        eexists. split; [reflexivity |]. right. by eexists _, _, [].
    + rewrite (proj1 (ToContiguous_plan_failure staging stream cs w e Hplan)).
      exists []. rewrite app_nil_r. auto.
  - destruct (plan_from 0 cs) as [[offs t] | e] eqn:Hplan.
    + destruct (Alloc GPU t (max_align cs) (pad w)) as [[base | e] s'] eqn:Halloc.
      * unfold ToContiguousGPU, ToContiguousGPUMem, bind, lift. rewrite Hplan.
        rewrite (call_Alloc_run _ _ _ _ _ _ Halloc). unfold emit at 1.
        match goal with |- context [copy_all staging offs cs ?w1] =>
          destruct (copy_all_log offs cs staging w1) as [h' ->] end.
        unfold cudaMemcpyAsync, emit. simpl. eexists.
        rewrite <- !app_assoc. split; [reflexivity |].
        right. eexists _, _, _. split; [reflexivity |].
        destruct (copy_events_counts staging offs cs) as (_ & Ha & _);
          [by eapply plan_from_length |].
        change (EvStaging staging t :: copy_events staging offs cs
                  ++ [EvMemcpyAsync base staging t cudaMemcpyHostToDevice stream])
          with ([EvStaging staging t] ++ copy_events staging offs cs
                  ++ [EvMemcpyAsync base staging t cudaMemcpyHostToDevice stream]).
        by rewrite !count_events_app, Ha.
      * rewrite (ToContiguousGPU_alloc_failure _ _ _ _ _ _ _ _ Hplan Halloc). simpl.
        eexists. split; [reflexivity |]. right. by eexists _, _, [].
    + rewrite (proj2 (ToContiguous_plan_failure staging stream cs w e Hplan)).
      exists []. rewrite app_nil_r. auto.
Qed.

End Packing_properties.

(** * Typed allocation and single-collection transfers *)

Lemma to_size_t_small (z : Z) : 0 ≤ z ≤ SIZE_MAX → to_size_t z = z.
Proof. unfold to_size_t, SIZE_MAX. intros H. apply Z.mod_small. lia. Qed.

Section Scratchpad_properties.

Context {S : Type} `{!Scratchpad S}.

Lemma call_Alloc_log alloc_type bytes alignment (w : World S) :
  log (snd (call_Alloc alloc_type bytes alignment w))
    = log w ++ [EvAlloc alloc_type bytes alignment].
Proof. unfold call_Alloc. by destruct (Alloc _ _ _ _). Qed.

(** A method that allocates and then wraps the pointer logs the request
    only. *)
Lemma bind_ret_log {A B} (m : M S A) (f : A → B) (w : World S) :
  log (snd ((let* a := m in ret (f a)) w)) = log (snd (m w)).
Proof. unfold bind, ret. by destruct (m w) as [[a | e] w']. Qed.

Lemma to_space_run alloc_type T (c : list (carrier T)) (w : World S) ptr s' :
  wf_elem T →
  size c * sizeof T ≤ SIZE_MAX →
  Alloc alloc_type (size c * sizeof T) (alignof T) (pad w) = (Ok ptr, s') →
  transferred alloc_type T c w ptr s'
    ((let* ptr := Allocate T alloc_type (size c) None in
      let* _ := std_copy T c ptr in
      ret ptr) w).
Proof.
  intros Hwf Hfit Halloc. pose proof Hwf as (Hs & _ & _).
  assert (to_size_t (size c * sizeof T) = size c * sizeof T) as Hn.
  { apply to_size_t_small. unfold size in *. nia. }
  unfold bind. rewrite (Allocate_run T alloc_type (size c) None w (Ok ptr) s');
    [| simpl; by rewrite Hn].
  unfold std_copy, ret, transferred. simpl. rewrite Hn, <- app_assoc.
  repeat split.
  - by apply copy_elems_stored.
  - intros k Hk. by apply copy_elems_outside.
Qed.

(** [ToGPU] once its allocation is granted: the request, then the copy
    enqueued from the start of the storage. *)
Lemma ToGPU_run T stream (c : ArrayLike T) (w : World S) ptr s' :
  Alloc GPU (to_size_t (size (items c) * sizeof T)) (alignof T) (pad w) = (Ok ptr, s') →
  ToGPU T stream c w =
    (Ok ptr,
     mkWorld s' (host w)
       (log w ++ [EvAlloc GPU (to_size_t (size (items c) * sizeof T)) (alignof T);
                  EvMemcpyAsync ptr (data c) (to_size_t (size (items c) * sizeof T))
                                cudaMemcpyHostToDevice stream])).
Proof.
  intros Halloc. unfold ToGPU, bind.
  rewrite (Allocate_run T GPU _ None w (Ok ptr) s' Halloc).
  unfold addr_of_elem, ret, cudaMemcpyAsync, emit. simpl.
  by rewrite Z.add_0_r, <- app_assoc.
Qed.

Lemma to_space_empty_run alloc_type T (w : World S) ptr s' :
  Alloc alloc_type 0 (alignof T) (pad w) = (Ok ptr, s') →
  (let* ptr := Allocate T alloc_type (size (@nil (carrier T))) None in
   let* _ := std_copy T [] ptr in
   ret ptr) w =
    (Ok ptr, mkWorld s' (host w) (log w ++ [EvAlloc alloc_type 0 (alignof T); EvCopy ptr 0])).
Proof.
  intros Halloc. unfold bind.
  rewrite (Allocate_run T alloc_type _ None w (Ok ptr) s'); [| exact Halloc].
  unfold std_copy, ret. simpl. by rewrite <- app_assoc.
Qed.

(** C6 (as amended). The typed helpers compute their byte count in
    [size_t]. [Allocate<T>] issues one request of
    [(count × sizeof(T)) mod 2^64] bytes, by default at [alignof(T)];
    [AllocTensor] one of [(volume(shape) × sizeof(T))] bytes reduced in the
    same way and returns the pointer paired with the given shape;
    [AllocTensorList] one request for the sum of the item volumes times
    [sizeof(T)], again reduced, backing all items. Whenever the exact byte
    count is representable in [size_t], it is the count requested. *)
Theorem typed_allocation_requests (T : ElemType) (alloc_type : AllocType)
  (count : Z) (alignment : option Z) (shape : TensorShape)
  (shapes : list TensorShape) (w : World S) :
  sized T →
  (log (snd (Allocate T alloc_type count alignment w))
     = log w ++ [EvAlloc alloc_type (to_size_t (count * sizeof T))
                         (default (alignof T) alignment)] ∧
   log (snd (Allocate T alloc_type count None w))
     = log w ++ [EvAlloc alloc_type (to_size_t (count * sizeof T)) (alignof T)] ∧
   (0 ≤ count → count * sizeof T ≤ SIZE_MAX →
      log (snd (Allocate T alloc_type count None w))
        = log w ++ [EvAlloc alloc_type (count * sizeof T) (alignof T)])) ∧
  (log (snd (AllocTensor alloc_type T shape w))
     = log w ++ [EvAlloc alloc_type (to_size_t (to_size_t (volume shape) * sizeof T))
                         (alignof T)] ∧
   (0 ≤ volume shape → volume shape * sizeof T ≤ SIZE_MAX →
      log (snd (AllocTensor alloc_type T shape w))
        = log w ++ [EvAlloc alloc_type (volume shape * sizeof T) (alignof T)]) ∧
   (∀ ptr s',
      Alloc alloc_type (to_size_t (to_size_t (volume shape) * sizeof T)) (alignof T) (pad w)
        = (Ok ptr, s') →
      fst (AllocTensor alloc_type T shape w)
        = Ok {| tv_backend := AllocBackend alloc_type; tv_data := ptr;
                tv_shape := shape |})) ∧
  (num_elements (TensorListShape_of_vector shapes) = sum_volumes shapes ∧
   log (snd (AllocTensorList alloc_type T (TensorListShape_of_vector shapes) w))
     = log w ++ [EvAlloc alloc_type (to_size_t (to_size_t (sum_volumes shapes) * sizeof T))
                         (alignof T)] ∧
   (0 ≤ sum_volumes shapes → sum_volumes shapes * sizeof T ≤ SIZE_MAX →
      log (snd (AllocTensorList alloc_type T (TensorListShape_of_vector shapes) w))
        = log w ++ [EvAlloc alloc_type (sum_volumes shapes * sizeof T) (alignof T)]) ∧
   (∀ ptr s',
      Alloc alloc_type (to_size_t (to_size_t (sum_volumes shapes) * sizeof T)) (alignof T)
            (pad w) = (Ok ptr, s') →
      fst (AllocTensorList alloc_type T (TensorListShape_of_vector shapes) w)
        = Ok {| tlv_backend := AllocBackend alloc_type; tlv_data := ptr;
                tlv_shape := TensorListShape_of_vector shapes |})).
Proof.
  intros [Hs Ha].
  assert (∀ v, 0 ≤ v → v * sizeof T ≤ SIZE_MAX →
               to_size_t (to_size_t v * sizeof T) = v * sizeof T) as Hexact.
  { intros v Hv Hfit.
    rewrite (to_size_t_small v) by nia. apply to_size_t_small. nia. }
  assert (num_elements (TensorListShape_of_vector shapes) = sum_volumes shapes) as Hsum.
  { unfold num_elements, sum_volumes. simpl.
    induction shapes as [| sh shapes IH]; simpl; [reflexivity | by rewrite IH]. }
  split; [| split].
  - split; [apply call_Alloc_log |]. split; [apply call_Alloc_log |].
    intros Hc Hfit. unfold Allocate. rewrite call_Alloc_log. simpl.
    rewrite to_size_t_small; [reflexivity | nia].
  - split; [| split].
    + unfold AllocTensor. rewrite bind_ret_log. apply call_Alloc_log.
    + intros Hv Hfit. unfold AllocTensor. rewrite bind_ret_log.
      unfold Allocate. rewrite call_Alloc_log. simpl. by rewrite Hexact.
    + intros ptr s' Halloc. unfold AllocTensor, bind.
      by rewrite (Allocate_run T alloc_type _ None w (Ok ptr) s' Halloc).
  - split; [exact Hsum |]. split; [| split].
    + unfold AllocTensorList. rewrite bind_ret_log, Hsum. apply call_Alloc_log.
    + intros Hv Hfit. unfold AllocTensorList. rewrite bind_ret_log, Hsum.
      unfold Allocate. rewrite call_Alloc_log. simpl. by rewrite Hexact.
    + intros ptr s' Halloc. unfold AllocTensorList, bind. rewrite Hsum.
      by rewrite (Allocate_run T alloc_type _ None w (Ok ptr) s' Halloc).
Qed.

(** C7. Transfers into host-resident memory. [ToHost], [ToPinned] and
    [ToUnified] request [size(c) × sizeof(T)] bytes of their memory kind at
    [alignof(T)] and, the allocation granted at [ptr], return [ptr] with
    every element of the source copied: in the world the call returns,
    element [i] of the source is read back at [ptr + i × sizeof(T)], for
    every [i] below [size(c)], in order. *)
Theorem host_transfer_copies (T : ElemType) (c : list (carrier T)) (w : World S) :
  wf_elem T →
  size c * sizeof T ≤ SIZE_MAX →
  (∀ ptr s',
     Alloc Host (size c * sizeof T) (alignof T) (pad w) = (Ok ptr, s') →
     transferred Host T c w ptr s' (ToHost T c w)) ∧
  (∀ ptr s',
     Alloc Pinned (size c * sizeof T) (alignof T) (pad w) = (Ok ptr, s') →
     transferred Pinned T c w ptr s' (ToPinned T c w)) ∧
  (∀ ptr s',
     Alloc Unified (size c * sizeof T) (alignof T) (pad w) = (Ok ptr, s') →
     transferred Unified T c w ptr s' (ToUnified T c w)).
Proof.
  intros Hwf Hfit. split; [| split]; intros ptr s' Halloc;
    apply (to_space_run _ T c w ptr s' Hwf Hfit Halloc).
Qed.

(** C9. The two overloads of [AllocTensorList] agree: on every vector of
    shapes, in every world and for every implementation of [Alloc], the
    overload taking the vector returns what the overload taking a
    [TensorListShape] returns on the [TensorListShape] built from the
    vector, and leaves the same world; both request the bytes of the summed
    item volumes once. *)
Theorem AllocTensorList_overloads_agree (alloc_type : AllocType) (T : ElemType)
  (shape : list TensorShape) (w : World S) :
  AllocTensorList_vector alloc_type T shape w
    = AllocTensorList alloc_type T (TensorListShape_of_vector shape) w ∧
  log (snd (AllocTensorList_vector alloc_type T shape w))
    = log w ++ [EvAlloc alloc_type (to_size_t (to_size_t (sum_volumes shape) * sizeof T))
                        (alignof T)].
Proof.
  split; [reflexivity |].
  unfold AllocTensorList_vector, AllocTensorList. rewrite bind_ret_log.
  unfold Allocate. rewrite call_Alloc_log. simpl.
  replace (num_elements (TensorListShape_of_vector shape)) with (sum_volumes shape);
    [reflexivity |].
  unfold num_elements, sum_volumes. simpl.
  induction shape as [| sh shape IH]; simpl; [reflexivity | by rewrite IH].
Qed.

(** C8. A device transfer. For every array-like collection, empty or not,
    and every stream, [ToGPU] requests [size(c) × sizeof(T)] bytes of device
    memory at [alignof(T)] and, the allocation granted at [ptr], enqueues
    one asynchronous host-to-device copy of that many bytes from the
    collection's storage to [ptr] on the caller's stream, and returns [ptr].
    The copy is only enqueued: it is the last call made, the call makes no
    copy of its own, and host memory is as before. *)
Theorem ToGPU_enqueues_one_copy (T : ElemType) (stream : cudaStream_t)
  (c : ArrayLike T) (w : World S) (ptr : Z) (s' : S) :
  sized T →
  size (items c) * sizeof T ≤ SIZE_MAX →
  Alloc GPU (size (items c) * sizeof T) (alignof T) (pad w) = (Ok ptr, s') →
  let n := size (items c) * sizeof T in
  let issued := [EvAlloc GPU n (alignof T);
                 EvMemcpyAsync ptr (data c) n cudaMemcpyHostToDevice stream] in
  ToGPU T stream c w = (Ok ptr, mkWorld s' (host w) (log w ++ issued)) ∧
  count_events is_alloc issued = 1%nat ∧
  count_events is_transfer issued = 1%nat ∧
  count_events is_copy issued = 0%nat.
Proof.
  intros [Hs _] Hfit Halloc. cbv zeta.
  assert (to_size_t (size (items c) * sizeof T) = size (items c) * sizeof T) as Hn.
  { apply to_size_t_small. unfold size in *. nia. }
  split; [| done].
  rewrite <- Hn in Halloc. rewrite (ToGPU_run T stream c w ptr s' Halloc).
  by rewrite Hn.
Qed.

(** C10. The copy source of [ToGPU] is the address of element 0, the start
    of the collection's storage, taken without a check. The collection has
    an element 0 exactly when [size(c) ≥ 1], and then that address is where
    element 0 is stored. For an empty collection there is no element 0;
    [ToGPU] still requests 0 bytes, and the copy it enqueues from that
    address is 0 bytes long. [ToHost], [ToPinned] and [ToUnified] on an
    empty collection request 0 bytes and return the pointer, with no byte
    of host memory read or written. *)
Theorem ToGPU_element_zero (T : ElemType) (stream : cudaStream_t) (c : ArrayLike T)
  (w : World S) :
  (∀ ptr s',
     Alloc GPU (to_size_t (size (items c) * sizeof T)) (alignof T) (pad w) = (Ok ptr, s') →
     ToGPU T stream c w =
       (Ok ptr,
        mkWorld s' (host w)
          (log w ++ [EvAlloc GPU (to_size_t (size (items c) * sizeof T)) (alignof T);
                     EvMemcpyAsync ptr (addr_of_elem c 0)
                                   (to_size_t (size (items c) * sizeof T))
                                   cudaMemcpyHostToDevice stream]))) ∧
  addr_of_elem c 0 = data c ∧
  (is_Some (items c !! 0%nat) ↔ 1 ≤ size (items c)) ∧
  (∀ x, items c !! 0%nat = Some x →
        stored_at (host w) (data c) T (items c) →
        load_bytes (addr_of_elem c 0) (Z.to_nat (sizeof T)) (host w) = Some (repr T x)) ∧
  (items c = [] →
   items c !! 0%nat = None ∧
   ∀ ptr s',
     Alloc GPU 0 (alignof T) (pad w) = (Ok ptr, s') →
     ToGPU T stream c w =
       (Ok ptr,
        mkWorld s' (host w)
          (log w ++ [EvAlloc GPU 0 (alignof T);
                     EvMemcpyAsync ptr (data c) 0 cudaMemcpyHostToDevice stream]))) ∧
  (∀ ptr s',
     Alloc Host 0 (alignof T) (pad w) = (Ok ptr, s') →
     ToHost T [] w =
       (Ok ptr, mkWorld s' (host w) (log w ++ [EvAlloc Host 0 (alignof T); EvCopy ptr 0]))) ∧
  (∀ ptr s',
     Alloc Pinned 0 (alignof T) (pad w) = (Ok ptr, s') →
     ToPinned T [] w =
       (Ok ptr, mkWorld s' (host w) (log w ++ [EvAlloc Pinned 0 (alignof T); EvCopy ptr 0]))) ∧
  (∀ ptr s',
     Alloc Unified 0 (alignof T) (pad w) = (Ok ptr, s') →
     ToUnified T [] w =
       (Ok ptr, mkWorld s' (host w) (log w ++ [EvAlloc Unified 0 (alignof T); EvCopy ptr 0]))).
Proof.
  assert (addr_of_elem c 0 = data c) as Haddr by (unfold addr_of_elem; lia).
  split; [| split; [| split; [| split; [| split; [| split; [| split]]]]]].
  - intros ptr s' Halloc. rewrite Haddr. by apply ToGPU_run.
  - exact Haddr.
  - unfold size. rewrite lookup_lt_is_Some. lia.
  - intros x Hx Hst. rewrite Haddr, <- (Hst 0%nat x Hx). f_equal. lia.
  - intros Hc. split; [by rewrite Hc |].
    intros ptr s' Halloc.
    rewrite (ToGPU_run T stream c w ptr s'); rewrite Hc; [reflexivity | exact Halloc].
  - intros ptr s' Halloc. by apply to_space_empty_run.
  - intros ptr s' Halloc. by apply to_space_empty_run.
  - intros ptr s' Halloc. by apply to_space_empty_run.
Qed.

End Scratchpad_properties.

(** * The statements on concrete inputs *)

Ltac prove_wf :=
  repeat first
    [ apply Forall_nil | apply Forall_cons; split
    | split | (intros; reflexivity) | lia ].

Lemma packing_layout_witness :
  Forall sized_collection [ex_ints; ex_doubles] ∧
  plan_from 0 [ex_ints; ex_doubles] = Ok ([0; 16], 32) ∧
  fst (ToContiguousHost [ex_ints; ex_doubles] (world0 65536)) = Ok [4096; 4112] ∧
  fst (ToContiguousGPU 64 7 [ex_ints; ex_doubles] (world0 65536)) = Ok [4096; 4112] ∧
  least_aligned_from 8 12 16.
Proof.
  assert (Forall sized_collection [ex_ints; ex_doubles]) as Hwf.
  { unfold sized_collection, sized. prove_wf. }
  assert (plan_from 0 [ex_ints; ex_doubles] = Ok ([0; 16], 32)) as Hplan by reflexivity.
  destruct (packing_layout (S := BumpPad) _ _ _ Hwf Hplan)
    as (_ & _ & Hnext & _ & _ & Hhost & Hgpu).
  split; [exact Hwf |]. split; [exact Hplan |]. split; [| split].
  - exact (proj1 (Hhost (world0 65536) 4096 {| bp_next := 4128; bp_limit := 65536 |} eq_refl)).
  - exact (proj1 (Hgpu (world0 65536) 64 7 4096
                       {| bp_next := 4128; bp_limit := 65536 |} eq_refl)).
  - exact (Hnext 0%nat ex_ints 0 ex_doubles 16 eq_refl eq_refl eq_refl eq_refl).
Defined.

Lemma packing_one_allocation_witness :
  Forall wf_collection [ex_ints; ex_doubles] ∧
  plan_from 0 [ex_ints; ex_doubles] = Ok ([0; 16], 32) ∧
  log (snd (ToContiguousHost [ex_ints; ex_doubles] (world0 65536)))
    = [EvAlloc Host 32 8; EvCopy 4096 12; EvCopy 4112 16].
Proof.
  assert (Forall wf_collection [ex_ints; ex_doubles]) as Hwf.
  { unfold wf_collection, wf_elem. prove_wf. }
  assert (plan_from 0 [ex_ints; ex_doubles] = Ok ([0; 16], 32)) as Hplan by reflexivity.
  destruct (packing_one_allocation (S := BumpPad) _ _ _ (world0 65536) Hwf Hplan)
    as (_ & _ & _ & _ & Hhost & _).
  split; [exact Hwf |]. split; [exact Hplan |].
  exact (proj1 (Hhost 4096 {| bp_next := 4128; bp_limit := 65536 |} eq_refl)).
Defined.

Lemma packing_device_single_transfer_witness :
  Forall wf_collection [ex_ints; ex_doubles] ∧
  plan_from 0 [ex_ints; ex_doubles] = Ok ([0; 16], 32) ∧
  Alloc GPU 32 (max_align [ex_ints; ex_doubles]) (pad (world0 65536))
    = (Ok 4096, {| bp_next := 4128; bp_limit := 65536 |}) ∧
  log (snd (ToContiguousGPU 64 7 [ex_ints; ex_doubles] (world0 65536)))
    = [EvAlloc GPU 32 8; EvStaging 64 32; EvCopy 64 12; EvCopy 80 16;
       EvMemcpyAsync 4096 64 32 cudaMemcpyHostToDevice 7].
Proof.
  assert (Forall wf_collection [ex_ints; ex_doubles]) as Hwf.
  { unfold wf_collection, wf_elem. prove_wf. }
  assert (plan_from 0 [ex_ints; ex_doubles] = Ok ([0; 16], 32)) as Hplan by reflexivity.
  split; [exact Hwf |]. split; [exact Hplan |]. split; [reflexivity |].
  exact (proj1 (packing_device_single_transfer (S := BumpPad) _ _ _ (world0 65536) 64 7 4096
                  {| bp_next := 4128; bp_limit := 65536 |} Hwf Hplan eq_refl)).
Defined.

Lemma zero_length_collection_witness :
  Forall wf_collection ([ex_ints] ++ ex_no_doubles :: [ex_doubles]) ∧
  c_items ex_no_doubles = [] ∧
  plan_from 0 ([ex_ints] ++ ex_no_doubles :: [ex_doubles]) = Ok ([0; 16; 16], 32) ∧
  byte_size ex_no_doubles = 0 ∧
  (∃ ptrs,
     fst (ToContiguousHost ([ex_ints] ++ ex_no_doubles :: [ex_doubles]) (world0 65536))
       = Ok ptrs ∧ ptrs !! 1%nat = Some 4112) ∧
  (∃ ptrs,
     fst (ToContiguousGPU 64 7 ([ex_ints] ++ ex_no_doubles :: [ex_doubles]) (world0 65536))
       = Ok ptrs ∧ ptrs !! 1%nat = Some 4112) ∧
  plan_from 0 ([ex_ints] ++ [ex_doubles]) = Ok ([0; 16], 32).
Proof.
  assert (Forall wf_collection ([ex_ints] ++ ex_no_doubles :: [ex_doubles])) as Hwf.
  { unfold wf_collection, wf_elem. simpl. prove_wf. }
  assert (plan_from 0 ([ex_ints] ++ ex_no_doubles :: [ex_doubles])
          = Ok ([0; 16; 16], 32)) as Hplan by reflexivity.
  destruct (zero_length_collection (S := BumpPad) [ex_ints] [ex_doubles] ex_no_doubles
              _ _ Hwf eq_refl Hplan)
    as (Hzero & offs_pre & cursor & offs_post & Hpre & Hoffs & _ & _
        & Hhost & Hgpu & _ & Habsorb).
  split; [exact Hwf |]. split; [reflexivity |]. split; [exact Hplan |].
  split; [exact Hzero |].
  injection Hpre as <- <-. injection Hoffs as <-.
  split; [| split].
  - exact (Hhost (world0 65536) 4096 {| bp_next := 4128; bp_limit := 65536 |} eq_refl).
  - exact (Hgpu (world0 65536) 64 7 4096 {| bp_next := 4128; bp_limit := 65536 |} eq_refl).
  - apply (Habsorb ex_doubles [] eq_refl). exists 1. reflexivity.
Defined.

(** C4, as stated, at three [int32_t], no [double], one [int32_t]: the
    empty collection between the two non-empty ones moves the collection
    after it from offset 12 to offset 16, in the plan and in the pointers
    returned. *)
Lemma zero_length_moves_next_offset :
  c_items ex_no_doubles = [] ∧
  plan_from 0 [ex_ints; ex_no_doubles; ex_one_int] = Ok ([0; 16; 16], 20) ∧
  plan_from 0 [ex_ints; ex_one_int] = Ok ([0; 12], 16) ∧
  fst (ToContiguousHost [ex_ints; ex_no_doubles; ex_one_int] (world0 65536))
    = Ok [4096; 4112; 4112] ∧
  fst (ToContiguousHost [ex_ints; ex_one_int] (world0 65536)) = Ok [4096; 4108].
Proof. repeat split; reflexivity. Qed.

(** The rounding of a zero-length collection is its own and shows before a
    collection of finer alignment: after one [char] and no [double]s, a
    second [char] follows the empty slot at 8; without the empty collection
    it is at 1. *)
Example zero_length_rounding :
  plan_from 0 [ex_char; ex_no_doubles; ex_char] = Ok ([0; 8; 8], 9) ∧
  plan_from 0 [ex_char; ex_char] = Ok ([0; 1], 2).
Proof. split; reflexivity. Qed.

Lemma packing_failures_witness :
  (∃ n : nat, SIZE_MAX < cursor_after 0 (take n [ex_half_spaces])) ∧
  ToContiguousHost [ex_half_spaces] (world0 65536) = (Err Overflow, world0 65536) ∧
  plan_from 0 [ex_ints; ex_doubles] = Ok ([0; 16], 32) ∧
  Alloc GPU 32 (max_align [ex_ints; ex_doubles]) (pad (world0 4100))
    = (Err AllocationExhausted, {| bp_next := 4096; bp_limit := 4100 |}) ∧
  ToContiguousGPU 64 7 [ex_ints; ex_doubles] (world0 4100)
    = (Err AllocationExhausted,
       mkWorld {| bp_next := 4096; bp_limit := 4100 |} ∅ [EvAlloc GPU 32 8]).
Proof.
  assert (∃ n : nat, SIZE_MAX < cursor_after 0 (take n [ex_half_spaces])) as Hover.
  { exists 1%nat. reflexivity. }
  split; [exact Hover |]. split; [| split; [reflexivity | split; [reflexivity |]]].
  - exact (proj1 (proj1 (packing_failures (S := BumpPad) [ex_half_spaces]
                           (world0 65536) 64 7) Hover)).
  - destruct (packing_failures (S := BumpPad) [ex_ints; ex_doubles] (world0 4100) 64 7)
      as (_ & _ & Hgpu & _).
    exact (proj1 (Hgpu [0; 16] 32 AllocationExhausted
                       {| bp_next := 4096; bp_limit := 4100 |} eq_refl eq_refl)).
Defined.

(** C6, as stated, at [Allocate<double>(AllocType::Host, 2^61)]: the
    product [count × sizeof(T)] is [2^64], the request logged is not for
    that many bytes (it is for none). *)
Lemma Allocate_product_counterexample :
  log (snd (Allocate double Host (2 ^ 61) None (world0 65536)))
    ≠ log (world0 65536) ++ [EvAlloc Host (2 ^ 61 * sizeof double) (alignof double)].
Proof. vm_compute. discriminate. Qed.

Lemma typed_allocation_requests_witness :
  sized double ∧
  log (snd (Allocate double Host 5 None (world0 65536))) = [EvAlloc Host 40 8] ∧
  log (snd (AllocTensor Host double [2; 3] (world0 65536))) = [EvAlloc Host 48 8] ∧
  log (snd (AllocTensorList Host double (TensorListShape_of_vector [[2; 3]; [4]])
                            (world0 65536))) = [EvAlloc Host 80 8].
Proof.
  assert (sized double) as Hs by (split; reflexivity).
  destruct (typed_allocation_requests (S := BumpPad) double Host 5 None [2; 3]
              [[2; 3]; [4]] (world0 65536) Hs)
    as ((_ & _ & Hcount) & (_ & Hshape & _) & (_ & _ & Hshapes & _)).
  split; [exact Hs |]. split; [| split].
  - apply Hcount; [lia | by vm_compute].
  - apply Hshape; [by vm_compute | by vm_compute].
  - apply Hshapes; [by vm_compute | by vm_compute].
Defined.

Lemma host_transfer_copies_witness :
  wf_elem int32_t ∧
  size [1; 2; 3] * sizeof int32_t ≤ SIZE_MAX ∧
  transferred Host int32_t [1; 2; 3] (world0 65536) 4096
    {| bp_next := 4108; bp_limit := 65536 |} (ToHost int32_t [1; 2; 3] (world0 65536)).
Proof.
  assert (wf_elem int32_t) as Hwf by (unfold wf_elem; prove_wf).
  assert (size [1; 2; 3] * sizeof int32_t ≤ SIZE_MAX) as Hfit by (by vm_compute).
  split; [exact Hwf |]. split; [exact Hfit |].
  exact (proj1 (host_transfer_copies (S := BumpPad) int32_t [1; 2; 3] (world0 65536)
                  Hwf Hfit) 4096 {| bp_next := 4108; bp_limit := 65536 |} eq_refl).
Defined.

Lemma ToGPU_enqueues_one_copy_witness :
  sized int32_t ∧
  ToGPU int32_t 7 ex_vector (world0 65536)
    = (Ok 4096,
       mkWorld {| bp_next := 4108; bp_limit := 65536 |} ∅
         [EvAlloc GPU 12 4; EvMemcpyAsync 4096 64 12 cudaMemcpyHostToDevice 7]) ∧
  ToGPU int32_t 7 ex_empty_vector (world0 65536)
    = (Ok 4096,
       mkWorld {| bp_next := 4096; bp_limit := 65536 |} ∅
         [EvAlloc GPU 0 4; EvMemcpyAsync 4096 64 0 cudaMemcpyHostToDevice 7]).
Proof.
  assert (sized int32_t) as Hs by (split; reflexivity).
  split; [exact Hs |]. split.
  - exact (proj1 (ToGPU_enqueues_one_copy (S := BumpPad) int32_t 7 ex_vector (world0 65536)
                    4096 {| bp_next := 4108; bp_limit := 65536 |}
                    Hs ltac:(by vm_compute) eq_refl)).
  - exact (proj1 (ToGPU_enqueues_one_copy (S := BumpPad) int32_t 7 ex_empty_vector
                    (world0 65536) 4096 {| bp_next := 4096; bp_limit := 65536 |}
                    Hs ltac:(by vm_compute) eq_refl)).
Defined.

Lemma ToGPU_element_zero_witness :
  ToGPU int32_t 7 ex_empty_vector (world0 65536)
    = (Ok 4096,
       mkWorld {| bp_next := 4096; bp_limit := 65536 |} ∅
         [EvAlloc GPU 0 4; EvMemcpyAsync 4096 64 0 cudaMemcpyHostToDevice 7]) ∧
  items ex_empty_vector !! 0%nat = None ∧
  1 ≤ size (items ex_vector) ∧
  ToHost int32_t [] (world0 65536)
    = (Ok 4096,
       mkWorld {| bp_next := 4096; bp_limit := 65536 |} ∅ [EvAlloc Host 0 4; EvCopy 4096 0]).
Proof.
  destruct (ToGPU_element_zero (S := BumpPad) int32_t 7 ex_empty_vector (world0 65536))
    as (_ & _ & _ & _ & Hempty & Hhost & _).
  destruct (Hempty eq_refl) as [Hnone Hrun].
  destruct (ToGPU_element_zero (S := BumpPad) int32_t 7 ex_vector (world0 65536))
    as (_ & _ & Hsome & _).
  split; [| split; [| split]].
  - exact (Hrun 4096 {| bp_next := 4096; bp_limit := 65536 |} eq_refl).
  - exact Hnone.
  - apply Hsome. exists 1. reflexivity.
  - exact (Hhost 4096 {| bp_next := 4096; bp_limit := 65536 |} eq_refl).
Defined.

(** * Further properties of the scratchpad methods *)

Section Scratchpad_outcomes.

Context {S : Type} `{!Scratchpad S}.

(** The body shared by [ToHost], [ToPinned] and [ToUnified] has the outcome
    of its allocation: the allocator's pointer or the allocator's error. *)
Lemma to_space_outcome alloc_type T (c : list (carrier T)) (w : World S) :
  let n := to_size_t (size c * sizeof T) in
  let out := (let* ptr := Allocate T alloc_type (size c) None in
              let* _ := std_copy T c ptr in
              ret ptr) w in
  fst out = fst (Alloc alloc_type n (alignof T) (pad w)) ∧
  pad (snd out) = snd (Alloc alloc_type n (alignof T) (pad w)) ∧
  ∀ e, fst (Alloc alloc_type n (alignof T) (pad w)) = Err e →
       host (snd out) = host w ∧
       log (snd out) = log w ++ [EvAlloc alloc_type n (alignof T)].
Proof.
  simpl. unfold bind.
  destruct (Alloc alloc_type (to_size_t (size c * sizeof T)) (alignof T) (pad w))
    as [r s'] eqn:Halloc.
  rewrite (Allocate_run T alloc_type (size c) None w r s' Halloc).
  destruct r as [ptr | e0]; simpl; repeat split; intros; try discriminate; reflexivity.
Qed.

(** [ToHost], [ToPinned] and [ToUnified] add no failure of their own: each
    returns the pointer of its allocation or fails with the allocator's
    error, and the allocator is left as [Alloc] left it. When the allocation
    is refused nothing has been copied: host memory is as before and the
    request is the only call logged. *)
Theorem host_transfer_outcome (T : ElemType) (c : list (carrier T)) (w : World S) :
  let n := to_size_t (size c * sizeof T) in
  (fst (ToHost T c w) = fst (Alloc Host n (alignof T) (pad w)) ∧
   pad (snd (ToHost T c w)) = snd (Alloc Host n (alignof T) (pad w)) ∧
   ∀ e, fst (Alloc Host n (alignof T) (pad w)) = Err e →
        host (snd (ToHost T c w)) = host w ∧
        log (snd (ToHost T c w)) = log w ++ [EvAlloc Host n (alignof T)]) ∧
  (fst (ToPinned T c w) = fst (Alloc Pinned n (alignof T) (pad w)) ∧
   pad (snd (ToPinned T c w)) = snd (Alloc Pinned n (alignof T) (pad w)) ∧
   ∀ e, fst (Alloc Pinned n (alignof T) (pad w)) = Err e →
        host (snd (ToPinned T c w)) = host w ∧
        log (snd (ToPinned T c w)) = log w ++ [EvAlloc Pinned n (alignof T)]) ∧
  (fst (ToUnified T c w) = fst (Alloc Unified n (alignof T) (pad w)) ∧
   pad (snd (ToUnified T c w)) = snd (Alloc Unified n (alignof T) (pad w)) ∧
   ∀ e, fst (Alloc Unified n (alignof T) (pad w)) = Err e →
        host (snd (ToUnified T c w)) = host w ∧
        log (snd (ToUnified T c w)) = log w ++ [EvAlloc Unified n (alignof T)]).
Proof.
  split; [| split].
  - exact (to_space_outcome Host T c w).
  - exact (to_space_outcome Pinned T c w).
  - exact (to_space_outcome Unified T c w).
Qed.

(** [ToGPU] never writes host memory and never calls [std::copy]: whatever
    the collection and whatever the allocator answers, host memory is as
    before, and the calls it made are one allocation and at most one
    asynchronous transfer. *)
Theorem ToGPU_leaves_host_memory (T : ElemType) (stream : cudaStream_t)
  (c : ArrayLike T) (w : World S) :
  host (snd (ToGPU T stream c w)) = host w ∧
  ∃ issued,
    log (snd (ToGPU T stream c w)) = log w ++ issued ∧
    count_events is_alloc issued = 1%nat ∧
    count_events is_copy issued = 0%nat ∧
    (count_events is_transfer issued ≤ 1)%nat.
Proof.
  unfold ToGPU, bind.
  destruct (Alloc GPU (to_size_t (size (items c) * sizeof T)) (alignof T) (pad w))
    as [r s'] eqn:Halloc.
  rewrite (Allocate_run T GPU (size (items c)) None w r s' Halloc).
  destruct r as [ptr | e].
  - unfold ret, cudaMemcpyAsync, emit. simpl. split; [reflexivity |].
    eexists. rewrite <- app_assoc. split; [reflexivity |].
    unfold count_events. simpl. auto.
  - simpl. split; [reflexivity |].
    eexists. split; [reflexivity |]. unfold count_events. simpl. auto.
Qed.


(** [ToGPU] allocates before it looks at the collection: a refused
    allocation ends it with the allocator's error, for an empty collection
    as for any other, with nothing enqueued. *)
Theorem ToGPU_alloc_failure (T : ElemType) (stream : cudaStream_t) (c : ArrayLike T)
  (w : World S) (e : Error) (s' : S) :
  Alloc GPU (to_size_t (size (items c) * sizeof T)) (alignof T) (pad w) = (Err e, s') →
  ToGPU T stream c w =
    (Err e, mkWorld s' (host w)
              (log w ++ [EvAlloc GPU (to_size_t (size (items c) * sizeof T)) (alignof T)])).
Proof.
  intros Halloc. unfold ToGPU, bind.
  by rewrite (Allocate_run T GPU (size (items c)) None w (Err e) s' Halloc).
Qed.

(** Two host transfers in a row. When the allocator serves the second
    request outside the bytes of the first buffer, both pointers are
    returned and both collections are stored, the first untouched by the
    second copy. *)
Theorem host_transfers_compose (T1 T2 : ElemType) (c1 : list (carrier T1))
  (c2 : list (carrier T2)) (w : World S) (p1 p2 : Z) (s1 s2 : S) :
  wf_elem T1 → wf_elem T2 →
  size c1 * sizeof T1 ≤ SIZE_MAX → size c2 * sizeof T2 ≤ SIZE_MAX →
  Alloc Host (size c1 * sizeof T1) (alignof T1) (pad w) = (Ok p1, s1) →
  Alloc Host (size c2 * sizeof T2) (alignof T2) s1 = (Ok p2, s2) →
  p2 + size c2 * sizeof T2 ≤ p1 ∨ p1 + size c1 * sizeof T1 ≤ p2 →
  let out := (let* q1 := ToHost T1 c1 in
              let* q2 := ToHost T2 c2 in
              ret (q1, q2)) w in
  fst out = Ok (p1, p2) ∧
  pad (snd out) = s2 ∧
  stored_at (host (snd out)) p1 T1 c1 ∧
  stored_at (host (snd out)) p2 T2 c2.
Proof.
  intros Hwf1 Hwf2 Hfit1 Hfit2 Halloc1 Halloc2 Hdisj. cbv zeta.
  pose proof (to_space_run Host T1 c1 w p1 s1 Hwf1 Hfit1 Halloc1) as Ht1.
  change (transferred Host T1 c1 w p1 s1 (ToHost T1 c1 w)) in Ht1.
  unfold bind. destruct (ToHost T1 c1 w) as [r1 w1].
  destruct Ht1 as (Hr1 & Hpad1 & _ & Hst1 & _). simpl in Hr1, Hpad1, Hst1. subst r1.
  rewrite <- Hpad1 in Halloc2.
  pose proof (to_space_run Host T2 c2 w1 p2 s2 Hwf2 Hfit2 Halloc2) as Ht2.
  change (transferred Host T2 c2 w1 p2 s2 (ToHost T2 c2 w1)) in Ht2.
  destruct (ToHost T2 c2 w1) as [r2 w2].
  destruct Ht2 as (Hr2 & Hpad2 & _ & Hst2 & Hframe2).
  simpl in Hr2, Hpad2, Hst2, Hframe2. subst r2. unfold ret. simpl.
  split; [reflexivity |]. split; [exact Hpad2 |]. split; [| exact Hst2].
  apply (stored_at_ext (host w1)); [apply Hwf1 | | exact Hst1].
  intros k Hk. symmetry. apply Hframe2. lia.
Qed.

(** Staging through pinned memory. After [ToPinned] has copied a non-empty
    collection to [p], [ToGPU] on the buffer at [p] enqueues one copy of
    the collection's bytes from [p] to the device allocation, and the
    collection is stored at [p] when the copy is enqueued. *)
Theorem pinned_then_ToGPU (T : ElemType) (stream : cudaStream_t)
  (c : list (carrier T)) (w : World S) (p d : Z) (s1 s2 : S) :
  wf_elem T →
  size c * sizeof T ≤ SIZE_MAX →
  1 ≤ size c →
  Alloc Pinned (size c * sizeof T) (alignof T) (pad w) = (Ok p, s1) →
  Alloc GPU (size c * sizeof T) (alignof T) s1 = (Ok d, s2) →
  let n := size c * sizeof T in
  let out := (let* q := ToPinned T c in
              ToGPU T stream (Build_ArrayLike T q c)) w in
  fst out = Ok d ∧
  log (snd out) = log w ++ [EvAlloc Pinned n (alignof T); EvCopy p n;
                            EvAlloc GPU n (alignof T);
                            EvMemcpyAsync d p n cudaMemcpyHostToDevice stream] ∧
  stored_at (host (snd out)) p T c.
Proof.
  intros Hwf Hfit Hne Halloc1 Halloc2. cbv zeta.
  pose proof Hwf as (Hs & _ & _).
  assert (to_size_t (size c * sizeof T) = size c * sizeof T) as Hn.
  { apply to_size_t_small. unfold size in *. nia. }
  pose proof (to_space_run Pinned T c w p s1 Hwf Hfit Halloc1) as Ht.
  change (transferred Pinned T c w p s1 (ToPinned T c w)) in Ht.
  unfold bind. destruct (ToPinned T c w) as [r1 w1].
  destruct Ht as (Hr1 & Hpad1 & Hlog1 & Hst1 & _).
  simpl in Hr1, Hpad1, Hlog1, Hst1. subst r1.
  rewrite <- Hpad1, <- Hn in Halloc2.
  rewrite (ToGPU_run T stream (Build_ArrayLike T p c) w1 d s2 Halloc2).
  simpl. rewrite Hlog1, Hn, <- app_assoc. auto.
Qed.

(** The typed helpers add no failure of their own and build nothing when
    the allocation is refused: [Allocate], [AllocTensor] and both overloads
    of [AllocTensorList] then fail with the allocator's error after that one
    request, and in every case they leave host memory alone. *)
Theorem typed_allocation_failure (T : ElemType) (alloc_type : AllocType)
  (shape : TensorShape) (shapes : list TensorShape) (w : World S) :
  (∀ e s',
     Alloc alloc_type (to_size_t (to_size_t (volume shape) * sizeof T)) (alignof T) (pad w)
       = (Err e, s') →
     AllocTensor alloc_type T shape w =
       (Err e, mkWorld s' (host w)
                 (log w ++ [EvAlloc alloc_type
                              (to_size_t (to_size_t (volume shape) * sizeof T))
                              (alignof T)]))) ∧
  (∀ e s',
     Alloc alloc_type (to_size_t (to_size_t (sum_volumes shapes) * sizeof T)) (alignof T)
           (pad w) = (Err e, s') →
     AllocTensorList_vector alloc_type T shapes w =
       (Err e, mkWorld s' (host w)
                 (log w ++ [EvAlloc alloc_type
                              (to_size_t (to_size_t (sum_volumes shapes) * sizeof T))
                              (alignof T)]))) ∧
  host (snd (AllocTensor alloc_type T shape w)) = host w ∧
  host (snd (AllocTensorList_vector alloc_type T shapes w)) = host w.
Proof.
  assert (num_elements (TensorListShape_of_vector shapes) = sum_volumes shapes) as Hsum.
  { unfold num_elements, sum_volumes. simpl.
    induction shapes as [| sh shapes IH]; simpl; [reflexivity | by rewrite IH]. }
  split; [| split; [| split]].
  - intros e s' Halloc. unfold AllocTensor, bind.
    by rewrite (Allocate_run T alloc_type _ None w (Err e) s' Halloc).
  - intros e s' Halloc. unfold AllocTensorList_vector, AllocTensorList, bind.
    rewrite Hsum. by rewrite (Allocate_run T alloc_type _ None w (Err e) s' Halloc).
  - unfold AllocTensor, bind, Allocate, call_Alloc.
    destruct (Alloc _ _ _ _) as [[ptr | e] s']; reflexivity.
  - unfold AllocTensorList_vector, AllocTensorList, bind, Allocate, call_Alloc.
    destruct (Alloc _ _ _ _) as [[ptr | e] s']; reflexivity.
Qed.

(** A tensor list of no item still calls [Alloc], for 0 bytes; a tensor list
    of one item makes the request [AllocTensor] makes for that item's
    shape. *)
Theorem AllocTensorList_few_items (T : ElemType) (alloc_type : AllocType)
  (shape : TensorShape) (w : World S) :
  log (snd (AllocTensorList_vector alloc_type T [] w))
    = log w ++ [EvAlloc alloc_type 0 (alignof T)] ∧
  log (snd (AllocTensorList_vector alloc_type T [shape] w))
    = log (snd (AllocTensor alloc_type T shape w)).
Proof.
  split.
  - unfold AllocTensorList_vector, AllocTensorList. rewrite bind_ret_log.
    unfold Allocate. by rewrite call_Alloc_log.
  - unfold AllocTensorList_vector, AllocTensorList, AllocTensor.
    rewrite !bind_ret_log. unfold Allocate. rewrite !call_Alloc_log.
    unfold num_elements. simpl. by rewrite Z.add_0_r.
Qed.

End Scratchpad_outcomes.

(** ** The further properties on concrete inputs *)

Lemma host_transfer_outcome_witness :
  fst (Alloc Host (to_size_t (size [1; 2; 3] * sizeof int32_t)) (alignof int32_t)
             (pad (world0 4100))) = Err AllocationExhausted ∧
  host (snd (ToHost int32_t [1; 2; 3] (world0 4100))) = host (world0 4100) ∧
  log (snd (ToHost int32_t [1; 2; 3] (world0 4100))) = [EvAlloc Host 12 4].
Proof.
  assert (fst (Alloc Host (to_size_t (size [1; 2; 3] * sizeof int32_t)) (alignof int32_t)
                     (pad (world0 4100))) = Err AllocationExhausted) as Hfail
    by reflexivity.
  split; [exact Hfail |].
  destruct (host_transfer_outcome (S := BumpPad) int32_t [1; 2; 3] (world0 4100))
    as ((_ & _ & Hhost) & _).
  exact (Hhost AllocationExhausted Hfail).
Defined.


Lemma ToGPU_alloc_failure_witness :
  Alloc GPU (to_size_t (size (items ex_empty_vector) * sizeof int32_t)) (alignof int32_t)
        (pad (world0 4000))
    = (Err AllocationExhausted, {| bp_next := 4096; bp_limit := 4000 |}) ∧
  ToGPU int32_t 7 ex_empty_vector (world0 4000)
    = (Err AllocationExhausted,
       mkWorld {| bp_next := 4096; bp_limit := 4000 |} ∅ [EvAlloc GPU 0 4]).
Proof.
  split; [reflexivity |].
  exact (ToGPU_alloc_failure (S := BumpPad) int32_t 7 ex_empty_vector (world0 4000)
           AllocationExhausted {| bp_next := 4096; bp_limit := 4000 |} eq_refl).
Defined.

Lemma host_transfers_compose_witness :
  wf_elem int32_t ∧ wf_elem double ∧
  fst ((let* q1 := ToHost int32_t [1; 2; 3] in
        let* q2 := ToHost double [15; 25] in
        ret (q1, q2)) (world0 65536)) = Ok (4096, 4112) ∧
  stored_at (host (snd ((let* q1 := ToHost int32_t [1; 2; 3] in
                         let* q2 := ToHost double [15; 25] in
                         ret (q1, q2)) (world0 65536)))) 4096 int32_t [1; 2; 3].
Proof.
  assert (wf_elem int32_t) as Hwf1 by (unfold wf_elem; prove_wf).
  assert (wf_elem double) as Hwf2 by (unfold wf_elem; prove_wf).
  split; [exact Hwf1 |]. split; [exact Hwf2 |].
  destruct (host_transfers_compose (S := BumpPad) int32_t double [1; 2; 3] [15; 25]
              (world0 65536) 4096 4112
              {| bp_next := 4108; bp_limit := 65536 |}
              {| bp_next := 4128; bp_limit := 65536 |}
              Hwf1 Hwf2 ltac:(by vm_compute) ltac:(by vm_compute) eq_refl eq_refl
              ltac:(right; by vm_compute))
    as (Hres & _ & Hst1 & _).
  split; [exact Hres | exact Hst1].
Defined.

Lemma pinned_then_ToGPU_witness :
  wf_elem int32_t ∧
  1 ≤ size [1; 2; 3] ∧
  fst ((let* q := ToPinned int32_t [1; 2; 3] in
        ToGPU int32_t 7 (Build_ArrayLike int32_t q [1; 2; 3])) (world0 65536)) = Ok 4108 ∧
  log (snd ((let* q := ToPinned int32_t [1; 2; 3] in
             ToGPU int32_t 7 (Build_ArrayLike int32_t q [1; 2; 3])) (world0 65536)))
    = [EvAlloc Pinned 12 4; EvCopy 4096 12; EvAlloc GPU 12 4;
       EvMemcpyAsync 4108 4096 12 cudaMemcpyHostToDevice 7].
Proof.
  assert (wf_elem int32_t) as Hwf by (unfold wf_elem; prove_wf).
  assert (1 ≤ size [1; 2; 3]) as Hne by (by vm_compute).
  split; [exact Hwf |]. split; [exact Hne |].
  destruct (pinned_then_ToGPU (S := BumpPad) int32_t 7 [1; 2; 3] (world0 65536) 4096 4108
              {| bp_next := 4108; bp_limit := 65536 |}
              {| bp_next := 4120; bp_limit := 65536 |}
              Hwf ltac:(by vm_compute) Hne eq_refl eq_refl)
    as (Hres & Hlog & _).
  split; [exact Hres | exact Hlog].
Defined.

Lemma typed_allocation_failure_witness :
  Alloc Host (to_size_t (to_size_t (volume [2; 3]) * sizeof double)) (alignof double)
        (pad (world0 4100))
    = (Err AllocationExhausted, {| bp_next := 4096; bp_limit := 4100 |}) ∧
  AllocTensor Host double [2; 3] (world0 4100)
    = (Err AllocationExhausted,
       mkWorld {| bp_next := 4096; bp_limit := 4100 |} ∅ [EvAlloc Host 48 8]).
Proof.
  split; [reflexivity |].
  destruct (typed_allocation_failure (S := BumpPad) double Host [2; 3] [] (world0 4100))
    as (Htensor & _).
  exact (Htensor AllocationExhausted {| bp_next := 4096; bp_limit := 4100 |} eq_refl).
Defined.
